(** * cozy-apps-registry: a shallow embedding of the registry core in Rocq

    The Go sources modelled here are [registry/registry.go] (version
    grammar, channels, archive download and validation),
    [registry/finders.go] (discovery: latest version, versions list, apps
    list; lookups of an application or a version by key) and
    [lru/lru.go] (the LRU+TTL cache).

    Conventions.
    - Go strings are Rocq [string]s (all strings the code inspects are ASCII).
    - A Go runtime panic (index out of range, slice bounds) is [None]
      where a function can panic.
    - Time is an integer count of nanoseconds ([Z]). *)

From Stdlib Require Import ZArith List Lia Bool.
From Stdlib Require Import Strings.String Strings.Ascii.
Import ListNotations.

Local Open Scope bool_scope.
Set Warnings "-register-all".

(* ================================================================== *)
(** ** Version grammar ([registry.go]: [validVersionReg], [GetVersionChannel],
    [SplitVersion], [VersionMatch], [VersionLess]) *)

Module Grammar.

Local Open Scope string_scope.

Inductive Channel := Stable | Beta | Dev.

Definition Channel_eqb (a b : Channel) : bool :=
  match a, b with
  | Stable, Stable | Beta, Beta | Dev, Dev => true
  | _, _ => false
  end.

Definition devSuffix : string := "-dev.".
Definition betaSuffix : string := "-beta.".

(** [strToChannel]: an unknown name gives [Stable] with [ErrChannelInvalid]. *)
Inductive ChannelError := ErrChannelInvalid.

Definition strToChannel (channel : string) : Channel * option ChannelError :=
  if String.eqb channel "stable" then (Stable, None)
  else if String.eqb channel "beta" then (Beta, None)
  else if String.eqb channel "dev" then (Dev, None)
  else (Stable, Some ErrChannelInvalid).

(** [strings.Index(s, pat)]: position of the first occurrence of [pat]. *)
Fixpoint index_of (pat s : string) : option nat :=
  if String.prefix pat s then Some 0
  else match s with
       | EmptyString => None
       | String _ s' => option_map S (index_of pat s')
       end.

(** [strings.Contains(s, pat)] *)
Definition contains (s pat : string) : bool :=
  match index_of pat s with Some _ => true | None => false end.

(** [s[:n]] *)
Fixpoint take (n : nat) (s : string) : string :=
  match n, s with
  | O, _ => EmptyString
  | S n', String c s' => String c (take n' s')
  | S _, EmptyString => EmptyString
  end.

(** [GetVersionChannel] *)
Definition GetVersionChannel (version : string) : Channel :=
  if contains version devSuffix then Dev
  else if contains version betaSuffix then Beta
  else Stable.

(** [strings.SplitN(s, ".", 2)]: cut at the first ['.'], if any. *)
Fixpoint split_at (sep : ascii) (s : string) : option (string * string) :=
  match s with
  | EmptyString => None
  | String c s' =>
      if Ascii.eqb c sep then Some (EmptyString, s')
      else match split_at sep s' with
           | Some (a, b) => Some (String c a, b)
           | None => None
           end
  end.

(** [strings.SplitN(s, ".", 3)] *)
Definition splitN3 (s : string) : list string :=
  match split_at "." s with
  | None => [s]
  | Some (a, r) =>
      match split_at "." r with
      | None => [a; r]
      | Some (b, c) => [a; b; c]
      end
  end.

(** [SplitVersion]: [None] is the index-out-of-range panic of [s[1]] or
    [s[2]] when the split yields fewer than three parts. *)
Definition SplitVersion (version : string) : option (string * string * string) :=
  let version :=
    match GetVersionChannel version with
    | Beta => match index_of betaSuffix version with
              | Some i => take i version | None => version end
    | Dev => match index_of devSuffix version with
             | Some i => take i version | None => version end
    | Stable => version
    end in
  match splitN3 version with
  | [s0; s1; s2] => Some (s0, s1, s2)
  | _ => None
  end.

(** Go's [<] on strings: byte-wise lexicographic order. *)
Definition go_string_lt (a b : string) : bool :=
  match String.compare a b with Lt => true | _ => false end.

(** [VersionMatch] *)
Definition VersionMatch (ver1 ver2 : string) : option bool :=
  match SplitVersion ver1, SplitVersion ver2 with
  | Some (a0, a1, a2), Some (b0, b1, b2) =>
      Some (String.eqb a0 b0 && String.eqb a1 b1 && String.eqb a2 b2)
  | _, _ => None
  end.

(** [VersionLess] *)
Definition VersionLess (ver1 ver2 : string) : option bool :=
  match SplitVersion ver1, SplitVersion ver2 with
  | Some (a0, a1, a2), Some (b0, b1, b2) =>
      Some (if go_string_lt a0 b0 then true
            else if String.eqb a0 b0 && go_string_lt a1 b1 then true
            else if String.eqb a0 b0 && String.eqb a1 b1 && go_string_lt a2 b2
                 then true
            else false)
  | _, _ => None
  end.

(** *** The regular expression [validVersionReg]

    [^(0|[1-9][0-9]{0,4})\.(0|[1-9][0-9]{0,4})\.(0|[1-9][0-9]{0,4})
      (-dev\.[a-f0-9]{1,40}|-beta.(0|[1-9][0-9]{0,4}))?$]

    The numeric groups are each followed by ['.'], ['-'] or the end of the
    string, so the regexp reads them as maximal digit runs.  In [-beta.]
    the dot is not escaped: it is RE2's [.], which matches one rune other
    than a newline.  [regexp] reads a string rune by rune with
    [utf8.DecodeRuneInString], so [.] consumes the bytes of one UTF-8
    sequence, or one byte of an invalid one.  Every other character of the
    pattern is ASCII, and an ASCII byte always decodes as itself, so the
    rest of the pattern is matched byte by byte. *)

Definition is_digit (c : ascii) : bool :=
  let n := nat_of_ascii c in ((48 <=? n) && (n <=? 57))%nat.

Definition is_lhex (c : ascii) : bool :=
  let n := nat_of_ascii c in (is_digit c || ((97 <=? n) && (n <=? 102)))%nat.

Fixpoint all_chars (p : ascii -> bool) (s : string) : bool :=
  match s with
  | EmptyString => true
  | String c s' => p c && all_chars p s'
  end.

(** [0|[1-9][0-9]{0,4}], matched against the whole of [d]. *)
Definition num_ok (d : string) : bool :=
  match d with
  | EmptyString => false
  | String c r =>
      if Ascii.eqb c "0" then String.eqb r ""
      else is_digit c && all_chars is_digit r && (String.length r <=? 4)%nat
  end.

(** Maximal run of decimal digits at the front of [s]. *)
Fixpoint take_digits (s : string) : string * string :=
  match s with
  | String c s' =>
      if is_digit c then let (d, r) := take_digits s' in (String c d, r)
      else (EmptyString, s)
  | EmptyString => (EmptyString, EmptyString)
  end.

Fixpoint drop (n : nat) (s : string) : string :=
  match n, s with
  | O, _ => s
  | S n', String _ s' => drop n' s'
  | S _, EmptyString => EmptyString
  end.

Definition in_range (lo hi : nat) (c : ascii) : bool :=
  ((lo <=? nat_of_ascii c) && (nat_of_ascii c <=? hi))%nat.

(** Number of bytes [utf8.DecodeRuneInString] reads at the front of a
    non-empty [s]: the length of a well-formed UTF-8 sequence (lead byte
    [C2]-[DF], [E0]-[EF] or [F0]-[F4] with the continuation bytes its
    [acceptRanges] entry allows), and 1 for an ASCII byte or an invalid
    sequence ([RuneError], width 1). *)
Definition utf8_width (s : string) : nat :=
  match s with
  | EmptyString => 0
  | String c0 r =>
      let n := nat_of_ascii c0 in
      let cont := in_range 128 191 in
      if (n <? 194)%nat then 1
      else if (n <=? 223)%nat then
        match r with
        | String c1 _ => if cont c1 then 2 else 1
        | EmptyString => 1
        end
      else if (n <=? 239)%nat then
        let lo := if (n =? 224)%nat then 160 else 128 in
        let hi := if (n =? 237)%nat then 159 else 191 in
        match r with
        | String c1 (String c2 _) => if in_range lo hi c1 && cont c2 then 3 else 1
        | _ => 1
        end
      else if (n <=? 244)%nat then
        let lo := if (n =? 240)%nat then 144 else 128 in
        let hi := if (n =? 244)%nat then 143 else 191 in
        match r with
        | String c1 (String c2 (String c3 _)) =>
            if in_range lo hi c1 && cont c2 && cont c3 then 4 else 1
        | _ => 1
        end
      else 1
  end.

(** [(-dev\.[a-f0-9]{1,40}|-beta.(0|[1-9][0-9]{0,4}))?$] *)
Definition suffix_ok (r : string) : bool :=
  match r with
  | EmptyString => true
  | _ =>
      (String.prefix "-dev." r && all_chars is_lhex (drop 5 r)
         && (1 <=? String.length (drop 5 r))%nat
         && (String.length (drop 5 r) <=? 40)%nat)
      || (String.prefix "-beta" r
          && match drop 5 r with
             | String c _ as t => negb (Ascii.eqb c "010") && num_ok (drop (utf8_width t) t)
             | EmptyString => false
             end)
  end.

(** A literal ['.'] at the front of [r]: the rest of [r]. *)
Definition expect_dot (r : string) : option string :=
  match r with
  | String c r' => if Ascii.eqb c "." then Some r' else None
  | EmptyString => None
  end.

(** [validVersionReg.MatchString] *)
Definition validVersion (s : string) : bool :=
  let (a, r1) := take_digits s in
  num_ok a &&
  match expect_dot r1 with
  | Some r1' =>
      let (b, r2) := take_digits r1' in
      num_ok b &&
      match expect_dot r2 with
      | Some r2' => let (c, r3) := take_digits r2' in num_ok c && suffix_ok r3
      | None => false
      end
  | None => false
  end.

End Grammar.

(* ================================================================== *)
(** ** Archive download and manifest reconciliation ([registry.go]:
    [downloadVersion]) *)

Module Download.

Import Grammar.
Local Open Scope string_scope.
Local Open Scope Z_scope.

Definition maxApplicationSize : Z := 20 * 1024 * 1024.

(** *** JSON values, as [encoding/json] decodes them *)
Inductive JVal :=
| JNull
| JBool (b : bool)
| JNum (z : Z)
| JStr (s : string)
| JArr (l : list JVal)
| JObj (fields : list (string * JVal)).

(** Go's [encoding/json] keeps the last value of a duplicated key. *)
Definition lookup_last (k : string) (fs : list (string * JVal)) : option JVal :=
  fold_left (fun acc kv => if String.eqb (fst kv) k then Some (snd kv) else acc)
            fs None.

(** *** Tar entries and response bodies

    The content of an entry is described by its length in bytes and by
    whether it is a JSON text (and then which value it denotes). *)
Inductive Content :=
| JsonText (len : Z) (j : JVal)
| RawBytes (len : Z).

Definition content_len (c : Content) : Z :=
  match c with JsonText n _ => n | RawBytes n => n end.

Inductive TypeFlag := TypeReg | TypeDir | TypeSymlink.

Record Entry := mkEntry {
  typeflag : TypeFlag;
  hdr_name : string;
  data : Content
}.

(** Bytes of file data after the header block: header-only types
    (directories, links) carry none ([archive/tar]: [isHeaderOnlyType]). *)
Definition data_len (e : Entry) : Z :=
  match typeflag e with
  | TypeReg => Z.max 0 (content_len (data e))
  | _ => 0
  end.

Definition round512 (n : Z) : Z := ((n + 511) / 512) * 512.

(** One 512-byte header block, then the data padded to whole blocks. *)
Definition entry_size (e : Entry) : Z := 512 + round512 (data_len e).

(** An uncompressed tar archive: the entries, then two zero blocks. *)
Definition tar_size (es : list Entry) : Z :=
  fold_right (fun e acc => entry_size e + acc) 1024 es.

(** The bytes the server sends.
    - [TarBody es trail]: an uncompressed tar archive of the entries [es]
      with its end-of-archive marker, then [trail] zero bytes (the record
      padding [tar] writes).
    - [GzipBody clen need avail es]: a gzip stream of [clen] bytes whose
      decompression is a tar archive of the entries [es].  [need] is the
      number of compressed bytes the decompressor has consumed when the
      tar reader has read the end-of-archive marker.  [avail] is the
      number of decompressed bytes it delivers before failing when its
      input stops after the first [Z.min clen maxApplicationSize] bytes
      and [need] is more than that.
    - [OtherBody len]: [len] bytes that are neither a gzip stream nor a tar
      archive (their first block is not a tar header). *)
Inductive Body :=
| TarBody (es : list Entry) (trail : Z)
| GzipBody (clen need avail : Z) (es : list Entry)
| OtherBody (len : Z).

Definition wire_len (b : Body) : Z :=
  match b with
  | TarBody es t => tar_size es + t
  | GzipBody c _ _ _ => c
  | OtherBody n => n
  end.


(** [io.LimitReader(res.Body, maxApplicationSize)]: bytes that get through. *)
Definition limited_len (b : Body) : Z := Z.min (wire_len b) maxApplicationSize.

(** *** The tar reader ([tarReader.Next] and [ioutil.ReadAll(tarReader)]) *)

Inductive TarEnd :=
| EndEOF                 (* [io.EOF]: the loop ends *)
| EndUnexpectedEOF       (* [io.ErrUnexpectedEOF] from [tarReader.Next] *)
| EndErr                 (* another error of [tarReader.Next] *)
| EndCut (e : Entry).    (* the header of [e] was read and its data is cut *)

(** Reading an uncompressed archive laid out from byte [pos] of a stream
    whose bytes stop at [lim].  [clean] tells how the stream stops: with
    [io.EOF] (the limiter, or the end of the body) when it is [true], with
    [io.ErrUnexpectedEOF] (a decompressor whose input is cut) otherwise.
    The result is the entries delivered whole, how the reading ends, and
    the position reached in the stream.
    - A stop before a header block: [io.ReadFull] returns the stream's
      error.  A header block cut: [io.ErrUnexpectedEOF].
    - Data cut: [Next] has delivered the entry, and reading its data
      ([ioutil.ReadAll]) or skipping it ([discard]) fails.
    - Padding cut: [tryReadFull] returns the stream's error.
    - The marker: a stop after its first zero block is the stream's error
      too; two zero blocks end the reading with [io.EOF]. *)
Fixpoint tar_read (clean : bool) (pos lim : Z) (es : list Entry)
  : list Entry * TarEnd * Z :=
  let stop := if clean then EndEOF else EndUnexpectedEOF in
  match es with
  | [] =>
      if lim <=? pos then ([], stop, lim)
      else if lim <? pos + 512 then ([], EndUnexpectedEOF, lim)
      else if lim =? pos + 512 then ([], stop, lim)
      else if lim <? pos + 1024 then ([], EndUnexpectedEOF, lim)
      else ([], EndEOF, pos + 1024)
  | e :: es' =>
      if lim <=? pos then ([], stop, lim)
      else if lim <? pos + 512 then ([], EndUnexpectedEOF, lim)
      else if lim <? pos + 512 + data_len e then ([], EndCut e, lim)
      else if lim <? pos + entry_size e then ([e], stop, lim)
      else let '(r, t, n) := tar_read clean (pos + entry_size e) lim es' in
           (e :: r, t, n)
  end.

(** Skipping to byte [off] of an uncompressed archive: [None] when [off]
    falls inside an entry, where the tar reader meets bytes that are not
    a header. *)
Fixpoint tar_seek (pos off : Z) (es : list Entry) : option (Z * list Entry) :=
  match es with
  | [] => if pos <=? off then Some (off, []) else None
  | e :: es' =>
      if pos =? off then Some (pos, es)
      else if pos <? off then tar_seek (pos + entry_size e) off es'
      else None
  end.

(** [tar.NewReader] directly on the limited wire bytes, from byte [off]
    on.  Bytes that are not a tar header fail with [tar.ErrHeader] once a
    whole block is read. *)
Definition raw_tar_view (off : Z) (b : Body) : list Entry * TarEnd * Z :=
  let lim := limited_len b in
  if lim <=? off then ([], EndEOF, lim)
  else
    let garbage := if lim <? off + 512 then ([], EndUnexpectedEOF, lim)
                   else ([], EndErr, off + 512) in
    match b with
    | TarBody es _ =>
        match tar_seek 0 off es with
        | Some (p, es') => tar_read true p lim es'
        | None => garbage
        end
    | _ => garbage
    end.

(** The buffer of [bufio.NewReader], through which [gzip.NewReader] pulls
    the compressed bytes, [bufioDefaultSize] at a time.  Each read of the
    body is taken to return as many bytes as asked, up to the limiter's
    cut. *)
Definition bufioDefaultSize : Z := 4096.

(** Bytes pulled through the buffer once the decompressor has consumed
    [n] of them, on a stream cut at [cut]. *)
Definition bufio_pulled (n cut : Z) : Z :=
  Z.min (((n + bufioDefaultSize - 1) / bufioDefaultSize) * bufioDefaultSize) cut.

(** [gzip.NewReader] then [tar.NewReader]; [None] is the error of
    [gzip.NewReader] on bytes that are not a gzip stream.  When the
    decompressor gets the [need] bytes it needs before the limiter's cut,
    the tar reader reads the archive up to its marker; otherwise the
    decompressor delivers [avail] bytes, then fails with
    [io.ErrUnexpectedEOF]. *)
Definition gzip_view (b : Body) : option (list Entry * TarEnd * Z) :=
  match b with
  | GzipBody _ need avail es =>
      let cut := limited_len b in
      Some (if need <=? cut then
              let '(r, t, _) := tar_read true 0 (tar_size es) es in
              (r, t, bufio_pulled need cut)
            else
              let '(r, t, _) := tar_read false 0 avail es in (r, t, cut))
  | _ => None
  end.

Definition gzipContentTypes : list string :=
  ["application/gzip"; "application/x-gzip"; "application/x-tgz";
   "application/tar+gzip"].

(** The [switch contentType] of [downloadVersion]: the entries the tar
    reader delivers, how it ends, and the bytes pulled from the body (the
    count of [counter] and the input of [h]).  [None] is the failure of
    the mandatory [gzip.NewReader].  A failed [gzip.NewReader] probe has
    already pulled one buffer from the stream. *)
Definition tar_view (contentType : string) (b : Body)
  : option (list Entry * TarEnd * Z) :=
  if existsb (String.eqb contentType) gzipContentTypes then gzip_view b
  else if String.eqb contentType "application/octet-stream" then
    match gzip_view b with
    | Some v => Some v
    | None => Some (raw_tar_view (Z.min bufioDefaultSize (limited_len b)) b)
    end
  else Some (raw_tar_view 0 b).

(** *** SHA-256, as an ideal hash

    [Sha256Of b n] is the digest of the first [n] wire bytes of [b];
    two digests are equal exactly when they digest the same data. *)
Inductive Digest := Sha256Of (b : Body) (n : Z).

Fixpoint JVal_eqb (x y : JVal) : bool :=
  match x, y with
  | JNull, JNull => true
  | JBool a, JBool b => Bool.eqb a b
  | JNum a, JNum b => Z.eqb a b
  | JStr a, JStr b => String.eqb a b
  | JArr l1, JArr l2 =>
      (fix go (l1 l2 : list JVal) : bool :=
         match l1, l2 with
         | [], [] => true
         | a :: r1, b :: r2 => JVal_eqb a b && go r1 r2
         | _, _ => false
         end) l1 l2
  | JObj f1, JObj f2 =>
      (fix go (f1 f2 : list (string * JVal)) : bool :=
         match f1, f2 with
         | [], [] => true
         | (k1, a) :: r1, (k2, b) :: r2 =>
             String.eqb k1 k2 && JVal_eqb a b && go r1 r2
         | _, _ => false
         end) f1 f2
  | _, _ => false
  end.

Definition Content_eqb (x y : Content) : bool :=
  match x, y with
  | JsonText n a, JsonText m b => Z.eqb n m && JVal_eqb a b
  | RawBytes n, RawBytes m => Z.eqb n m
  | _, _ => false
  end.

Definition TypeFlag_eqb (x y : TypeFlag) : bool :=
  match x, y with
  | TypeReg, TypeReg | TypeDir, TypeDir | TypeSymlink, TypeSymlink => true
  | _, _ => false
  end.

Definition Entry_eqb (x y : Entry) : bool :=
  TypeFlag_eqb (typeflag x) (typeflag y) && String.eqb (hdr_name x) (hdr_name y)
  && Content_eqb (data x) (data y).

Fixpoint Entries_eqb (l1 l2 : list Entry) : bool :=
  match l1, l2 with
  | [], [] => true
  | a :: r1, b :: r2 => Entry_eqb a b && Entries_eqb r1 r2
  | _, _ => false
  end.

Definition Body_eqb (x y : Body) : bool :=
  match x, y with
  | TarBody a t, TarBody b u => Entries_eqb a b && Z.eqb t u
  | GzipBody c n v a, GzipBody d m w b =>
      Z.eqb c d && Z.eqb n m && Z.eqb v w && Entries_eqb a b
  | OtherBody n, OtherBody m => Z.eqb n m
  | _, _ => false
  end.

(** What the first [n] bytes of [b] are: the zero bytes after a tar
    archive count up to byte [n] only. *)
Definition clip (b : Body) (n : Z) : Body :=
  match b with
  | TarBody es t => TarBody es (Z.max 0 (Z.min t (n - tar_size es)))
  | _ => b
  end.

(** [bytes.Equal(shasum, h.Sum(nil))] *)
Definition Digest_eqb (x y : Digest) : bool :=
  match x, y with
  | Sha256Of b n, Sha256Of c m => Z.eqb n m && Body_eqb (clip b n) (clip c m)
  end.

(** *** Records of the program *)

Record VersionOptions := mkVersionOptions {
  o_version : string;
  o_url : string;
  o_sha256 : Digest      (* [hex.DecodeString(opts.Sha256)] *)
}.

Record Response := mkResponse {
  StatusCode : Z;
  ContentType : string;
  RespBody : Body
}.

Record Version := mkVersion {
  v_ID : string;
  v_Rev : string;
  v_Attachments : list string;
  v_Slug : string;
  v_Editor : string;
  v_Type : string;
  v_Version : string;
  v_Manifest : Content;
  v_CreatedAt : Z;
  v_URL : string;
  v_Size : Z;
  v_Sha256 : Digest;
  v_TarPrefix : string
}.

(** *** [strings.ToLower]

    A string of ASCII bytes has its letters [A]-[Z] lowered byte by byte.
    Any other string goes through [strings.Map(unicode.ToLower, s)], which
    applies Unicode's case mapping rune by rune; the model takes that
    mapping as a parameter, [map_lower], and states its results for every
    choice of it. *)
Class UnicodeLower := { map_lower : string -> string }.

Definition lower_char (c : ascii) : ascii :=
  let n := nat_of_ascii c in
  if ((65 <=? n) && (n <=? 90))%nat then ascii_of_nat (n + 32) else c.

(** Every byte is below [utf8.RuneSelf]. *)
Fixpoint is_ascii_str (s : string) : bool :=
  match s with
  | EmptyString => true
  | String c s' => (nat_of_ascii c <? 128)%nat && is_ascii_str s'
  end.

Fixpoint ascii_lower (s : string) : string :=
  match s with
  | EmptyString => EmptyString
  | String c s' => String (lower_char c) (ascii_lower s')
  end.

Definition ToLower {UL : UnicodeLower} (s : string) : string :=
  if is_ascii_str s then ascii_lower s else map_lower s.

Definition getVersionID {UL : UnicodeLower} (appSlug version : string) : string :=
  ToLower appSlug ++ "-" ++ version.

(** *** Errors *)

(** The violations collected by [multierror.Append]. *)
Inductive Violation :=
| EditorEmpty            (* "editor" field is empty *)
| SlugEmpty              (* "slug" field is empty *)
| VersionFieldMismatch   (* "version" field does not match *)
| PackageJsonMismatch.   (* version from package.json *)

Inductive Reason :=
| CouldNotReach
| FileTooBig
| PackageJsonInvalid
| ChecksumMismatch
| NoManifest
| ManifestNotJSON
| ManifestMismatch (errm : list Violation).

Definition StatusUnprocessableEntity : Z := 422.

Record HttpError := mkHttpError { err_code : Z; err_reason : Reason }.

Inductive Result (A : Type) :=
| Ok (a : A)
| Fail (e : HttpError)
| Panic.
Arguments Ok {A} a.
Arguments Fail {A} e.
Arguments Panic {A}.

Definition unprocessable {A} (r : Reason) : Result A :=
  Fail (mkHttpError StatusUnprocessableEntity r).

(** *** The loop over the tar entries *)

Record LoopState := mkLoopState {
  packVersion : string;
  appType : string;
  prefix : string;
  manifestContent : Content
}.

Definition initLoop : LoopState := mkLoopState "" "" "" (RawBytes 0).

(** [ioutil.ReadAll(tarReader)]: the data of the current entry. *)
Definition read_all (e : Entry) : Content :=
  match typeflag e with
  | TypeReg => data e
  | _ => RawBytes 0
  end.

(** [strings.SplitN(name, "/", 2)] and the common-prefix bookkeeping:
    returns the new [prefix] and the name with its top segment removed. *)
Definition step_prefix (prefix name : string) : string * string :=
  match split_at "/" name with
  | Some (top, rest) =>
      ((if String.eqb prefix "" then top
        else if negb (String.eqb prefix top) then "" else prefix), rest)
  | None => (prefix, name)
  end.

(** The name compared against [manifest.webapp] and the like. *)
Definition logical_name (name : string) : string := snd (step_prefix "" name).

(** [json.Unmarshal(packageContent, &pack)] with
    [pack struct { Version string `json:"version"` }]. *)
Definition parse_package (c : Content) : option string :=
  match c with
  | JsonText _ (JObj fs) =>
      match lookup_last "version" fs with
      | None | Some JNull => Some ""
      | Some (JStr s) => Some s
      | Some _ => None
      end
  | JsonText _ JNull => Some ""
  | _ => None
  end.

(** The loop reads the data of an entry named [manifest.webapp],
    [manifest.konnector] or [package.json] (after its top directory). *)
Definition reads_data (e : Entry) : bool :=
  let name := logical_name (hdr_name e) in
  String.eqb name "manifest.webapp" || String.eqb name "manifest.konnector"
  || String.eqb name "package.json".

Fixpoint scan (st : LoopState) (es : list Entry) : Result LoopState :=
  match es with
  | [] => Ok st
  | e :: es' =>
      match typeflag e with
      | TypeSymlink => scan st es'      (* neither TypeReg nor TypeDir *)
      | _ =>
          let (prefix', name) := step_prefix (prefix st) (hdr_name e) in
          let st1 := mkLoopState (packVersion st) (appType st) prefix'
                                 (manifestContent st) in
          let st2 :=
            if String.eqb name "manifest.webapp" then
              mkLoopState (packVersion st1) "webapp" (prefix st1) (read_all e)
            else if String.eqb name "manifest.konnector" then
              mkLoopState (packVersion st1) "konnector" (prefix st1) (read_all e)
            else st1 in
          if String.eqb name "package.json" then
            match parse_package (read_all e) with
            | None => unprocessable PackageJsonInvalid
            | Some v =>
                scan (mkLoopState v (appType st2) (prefix st2)
                                  (manifestContent st2)) es'
            end
          else scan st2 es'
      end
  end.

(** *** Manifest reconciliation *)

(** [json.Unmarshal(manifestContent, &manifest)] into a
    [map[string]interface{}]; [null] gives a nil map. *)
Definition manifest_map (c : Content) : option (list (string * JVal)) :=
  match c with
  | JsonText _ (JObj fs) => Some fs
  | JsonText _ JNull => Some []
  | _ => None
  end.

(** [manifest[k].(string)] *)
Definition str_field (k : string) (fs : list (string * JVal)) : option string :=
  match lookup_last k fs with Some (JStr s) => Some s | _ => None end.

Definition empty_field (k : string) (fs : list (string * JVal)) : bool :=
  match str_field k fs with Some s => String.eqb s "" | None => true end.

(** Lines 570-610 of [registry.go]; [None] is a panic of [VersionMatch]. *)
Definition reconcile (optsVersion : string) (fs : list (string * JVal))
                     (packVersion : string) : option (list Violation) :=
  let e1 := if empty_field "editor" fs then [EditorEmpty] else [] in
  let e2 := if empty_field "slug" fs then [SlugEmpty] else [] in
  let '(version, ok) :=
    match str_field "version" fs with Some s => (s, true) | None => ("", false) end in
  let notDev := negb (Channel_eqb (GetVersionChannel optsVersion) Dev) in
  let m1 := if negb ok then Some false
            else if notDev then Some (String.eqb optsVersion version)
            else VersionMatch optsVersion version in
  match m1 with
  | None => None
  | Some m1 =>
      let e3 := if m1 then [] else [VersionFieldMismatch] in
      if negb (String.eqb packVersion "") then
        let m2 := if notDev then Some (negb (String.eqb optsVersion packVersion))
                  else VersionMatch optsVersion packVersion in
        match m2 with
        | None => None
        | Some m2 =>
            Some (e1 ++ e2 ++ e3 ++ (if m2 then [] else [PackageJsonMismatch]))%list
        end
      else Some (e1 ++ e2 ++ e3)%list
  end.

(** *** [downloadVersion]

    [fetched] is the outcome of [versionClient.Do(req)] ([None]: the
    request could not be made or did not complete); [now] is
    [time.Now()].  The SHA-256 hasher and the byte counter see the bytes
    pulled from the body through the size limiter. *)
Definition downloadVersion {UL : UnicodeLower} (fetched : option Response)
                           (opts : VersionOptions) (now : Z) : Result Version :=
  match fetched with
  | None => unprocessable CouldNotReach
  | Some res =>
      if negb (StatusCode res =? 200) then unprocessable CouldNotReach else
      let b := RespBody res in
      match tar_view (ContentType res) b with
      | None => unprocessable CouldNotReach
      | Some (es, tend, consumed) =>
          match scan initLoop es with
          | Fail e => Fail e
          | Panic => Panic
          | Ok st =>
              match tend with
              | EndUnexpectedEOF => unprocessable FileTooBig
              | EndErr => unprocessable CouldNotReach
              | EndCut e =>
                  (* the loop reaches the entry whose data is cut:
                     [ioutil.ReadAll] fails on a manifest or package.json,
                     the next [tarReader.Next] fails on any other entry *)
                  if reads_data e then unprocessable CouldNotReach
                  else unprocessable FileTooBig
              | EndEOF =>
                  if negb (Digest_eqb (o_sha256 opts) (Sha256Of b consumed))
                  then unprocessable ChecksumMismatch
                  else if content_len (manifestContent st) =? 0
                  then unprocessable NoManifest
                  else match manifest_map (manifestContent st) with
                  | None => unprocessable ManifestNotJSON
                  | Some fs =>
                      match reconcile (o_version opts) fs (packVersion st) with
                      | None => Panic
                      | Some ((_ :: _) as errm) => unprocessable (ManifestMismatch errm)
                      | Some [] =>
                          let editorName :=
                            match str_field "editor" fs with Some s => s | None => "" end in
                          let slug :=
                            match str_field "slug" fs with Some s => s | None => "" end in
                          Ok {| v_ID := getVersionID slug (o_version opts);
                                v_Rev := "";
                                v_Attachments := [];
                                v_Slug := slug;
                                v_Editor := editorName;
                                v_Type := appType st;
                                v_Version := o_version opts;
                                v_Manifest := manifestContent st;
                                v_CreatedAt := now;
                                v_URL := o_url opts;
                                v_Size := consumed;
                                v_Sha256 := o_sha256 opts;
                                v_TarPrefix := prefix st |}
                      end
                  end
              end
          end
      end
  end.

End Download.

(* ================================================================== *)
(** ** The LRU+TTL cache ([lru/lru.go])

    [ll] is the [container/list] of entries, front (most recently used)
    first.  The [map[Key]*list.Element] index always maps a key to the one
    element of [ll] holding it, so a lookup in the map is a lookup of the
    key in [ll], and removing the element is removing that entry.  [mu]
    tells whether the [sync.Mutex] is held.  An operation that locks a
    mutex already held blocks forever: its outcome is [Deadlock]. *)

Module LRU.

Local Open Scope Z_scope.

Record entry (V : Type) := mkentry { key : string; value : V; date : Z }.
Arguments mkentry {V} key value date.
Arguments key {V} e.
Arguments value {V} e.
Arguments date {V} e.

Record Cache (V : Type) := mkCache {
  MaxEntries : Z;
  TTL : Z;
  mu : bool;
  ll : list (entry V)
}.
Arguments mkCache {V} MaxEntries TTL mu ll.
Arguments MaxEntries {V} c.
Arguments TTL {V} c.
Arguments mu {V} c.
Arguments ll {V} c.

Inductive Step (V A : Type) :=
| Done (c : Cache V) (a : A)
| Deadlock.
Arguments Done {V A} c a.
Arguments Deadlock {V A}.

Section Ops.
Context {V : Type}.

(** [New(maxEntries, ttl)] *)
Definition New (maxEntries ttl : Z) : Cache V := mkCache maxEntries ttl false [].

Definition set_mu (b : bool) (c : Cache V) : Cache V :=
  mkCache (MaxEntries c) (TTL c) b (ll c).
Definition set_ll (l : list (entry V)) (c : Cache V) : Cache V :=
  mkCache (MaxEntries c) (TTL c) (mu c) l.

(** [c.cache[key]] *)
Fixpoint find_entry (k : string) (l : list (entry V)) : option (entry V) :=
  match l with
  | [] => None
  | e :: l' => if String.eqb (key e) k then Some e else find_entry k l'
  end.

(** [c.ll.Remove(ele)] for the element of key [k]. *)
Fixpoint remove_key (k : string) (l : list (entry V)) : list (entry V) :=
  match l with
  | [] => []
  | e :: l' => if String.eqb (key e) k then l' else e :: remove_key k l'
  end.

(** [c.ll.Back()] removed: all but the last element. *)
Fixpoint drop_last (l : list (entry V)) : list (entry V) :=
  match l with
  | [] | [_] => []
  | e :: l' => e :: drop_last l'
  end.

(** [RemoveOldest] *)
Definition RemoveOldest (c : Cache V) : Step V unit :=
  if mu c then Deadlock                                  (* c.mu.Lock() *)
  else Done (set_ll (drop_last (ll c)) c) tt.            (* defer Unlock *)

(** [Add]: the new-key branch calls [RemoveOldest] while [mu] is held. *)
Definition Add (k : string) (v : V) (now : Z) (c : Cache V) : Step V unit :=
  if mu c then Deadlock else
  let c := set_mu true c in
  match find_entry k (ll c) with
  | Some _ =>
      Done (set_mu false (set_ll (mkentry k v now :: remove_key k (ll c)) c)) tt
  | None =>
      let c := set_ll (mkentry k v now :: ll c) c in
      if negb (MaxEntries c =? 0) && (MaxEntries c <? Z.of_nat (List.length (ll c)))
      then match RemoveOldest c with
           | Deadlock => Deadlock
           | Done c' _ => Done (set_mu false c') tt
           end
      else Done (set_mu false c) tt
  end.

(** [Get]: [(Some v, true)] on a hit, [(None, false)] on a miss. *)
Definition Get (k : string) (now : Z) (c : Cache V) : Step V (option V * bool) :=
  if mu c then Deadlock else
  match find_entry k (ll c) with
  | Some e =>
      if (TTL c =? 0) || (now - date e <=? TTL c) then
        Done (set_ll (mkentry k (value e) now :: remove_key k (ll c)) c)
             (Some (value e), true)
      else Done (set_ll (remove_key k (ll c)) c) (None, false)
  | None => Done c (None, false)
  end.

(** [Remove] *)
Definition Remove (k : string) (c : Cache V) : Step V unit :=
  if mu c then Deadlock else
  match find_entry k (ll c) with
  | Some _ => Done (set_ll (remove_key k (ll c)) c) tt     (* c.removeElement(ele) *)
  | None => Done c tt
  end.

End Ops.
End LRU.

(* ================================================================== *)
(** ** Discovery ([registry/finders.go]) *)

Module Finders.

Import Grammar Download.
Local Open Scope string_scope.
Local Open Scope Z_scope.

Record AppVersions := mkAppVersions {
  av_Stable : list string;
  av_Beta : list string;
  av_Dev : list string
}.

Record App := mkApp {
  app_ID : string;
  app_Slug : string;
  app_Versions : option AppVersions;
  app_LatestVersion : option Version
}.

Inductive FinderError :=
| ErrAppSlugInvalid
| ErrVersionNotFound
| StoreError (code : Z).

Inductive Res (A : Type) :=
| ROk (a : A)
| RErr (e : FinderError)
| RPanic.
Arguments ROk {A} a.
Arguments RErr {A} e.
Arguments RPanic {A}.

(** The raw JSON kept in the caches is modelled by the value it decodes
    to: [json.Unmarshal] of a cached [json.Marshal] or raw document gives
    back that value. *)
Record Space := mkSpace {
  cacheVersionsLatest : LRU.Cache Version;
  cacheVersionsList : LRU.Cache AppVersions
}.

Definition minute : Z := 60 * 1000 * 1000 * 1000.

Definition initSpace : Space :=
  mkSpace (LRU.New 256 (5 * minute)) (LRU.New 256 (5 * minute)).

(** Rows of the per-application views, as the document store returns
    them: [TotalRows] is the [total_rows] of the response. *)
Record ViewRows := mkViewRows {
  TotalRows : nat;
  rows : list (string * Version)      (* value (version string), doc *)
}.

(** The document store: the versions views ([versionViewQuery], with its
    lazy creation of the views) and the apps index ([db.Find]). *)
Record QueryOpts := mkQueryOpts {
  q_limit : Z;
  q_descending : bool;
  q_include_docs : bool
}.

Record Store := mkStore {
  view_query : string -> string -> QueryOpts -> option ViewRows;
                                      (* None: store error *)
  apps_rows : list App          (* rows matching the selector, sorted *)
}.

Definition channelToStr (c : Channel) : string :=
  match c with Stable => "stable" | Beta => "beta" | Dev => "dev" end.

(** [validSlugReg]: [^[A-Za-z][A-Za-z0-9\-]*$] *)
Definition is_alpha (c : ascii) : bool :=
  let n := nat_of_ascii c in
  (((65 <=? n) && (n <=? 90)) || ((97 <=? n) && (n <=? 122)))%nat.

Definition validSlug (s : string) : bool :=
  match s with
  | EmptyString => false
  | String c r =>
      is_alpha c
      && all_chars (fun d => is_alpha d || is_digit d || Ascii.eqb d "-") r
  end.

Definition set_latest (c : LRU.Cache Version) (sp : Space) : Space :=
  mkSpace c (cacheVersionsList sp).
Definition set_list (c : LRU.Cache AppVersions) (sp : Space) : Space :=
  mkSpace (cacheVersionsLatest sp) c.

(** [latestVersion.ID = ""; latestVersion.Rev = ""; latestVersion.Attachments = nil] *)
Definition strip (v : Version) : Version :=
  {| v_ID := ""; v_Rev := ""; v_Attachments := [];
     v_Slug := v_Slug v; v_Editor := v_Editor v; v_Type := v_Type v;
     v_Version := v_Version v; v_Manifest := v_Manifest v;
     v_CreatedAt := v_CreatedAt v; v_URL := v_URL v; v_Size := v_Size v;
     v_Sha256 := v_Sha256 v; v_TarPrefix := v_TarPrefix v |}.

(** Outcomes of the discovery functions: [None] is a deadlock in a cache. *)
Definition Outcome (A : Type) : Type := option (Space * Res A).

(** [FindLatestVersion] *)
Definition FindLatestVersion (st : Store) (appSlug : string) (channel : Channel)
                             (now : Z) (sp : Space) : Outcome Version :=
  if negb (validSlug appSlug) then Some (sp, RErr ErrAppSlugInvalid) else
  let channelStr := channelToStr channel in
  let key := appSlug ++ "/" ++ channelStr in
  match LRU.Get key now (cacheVersionsLatest sp) with
  | LRU.Deadlock => None
  | LRU.Done c (Some data, true) => Some (set_latest c sp, ROk data)
  | LRU.Done c _ =>
      let sp := set_latest c sp in
      match view_query st appSlug channelStr (mkQueryOpts 1 true true) with
      | None => Some (sp, RErr (StoreError 500))
      | Some vr =>
          match rows vr with
          | [] => Some (sp, RErr ErrVersionNotFound)
          | (_, data) :: _ =>
              let latestVersion := strip data in
              match LRU.Add key data now c with
              | LRU.Deadlock => None
              | LRU.Done c' _ => Some (set_latest c' sp, ROk latestVersion)
              end
          end
      end
  end.

(** The [case Dev] loop: a stable version goes to [stable] and, through
    [fallthrough], to [beta]; every other version goes to [beta]. *)
Fixpoint dev_split (vs : list string) : list string * list string :=
  match vs with
  | [] => ([], [])
  | v :: r =>
      let (s, b) := dev_split r in
      match GetVersionChannel v with
      | Stable => (v :: s, v :: b)
      | _ => (s, v :: b)
      end
  end.

Definition compose (channel : Channel) (allVersions : list string) : AppVersions :=
  match channel with
  | Stable => mkAppVersions allVersions [] []
  | Beta =>
      mkAppVersions
        (filter (fun v => Channel_eqb (GetVersionChannel v) Stable) allVersions)
        allVersions []
  | Dev => let (s, b) := dev_split allVersions in mkAppVersions s b allVersions
  end.

(** [FindAppVersions]; [allVersions] starts as
    [make([]string, int(rows.TotalRows()))] and the values are appended. *)
Definition FindAppVersions (st : Store) (appSlug : string) (channel : Channel)
                           (now : Z) (sp : Space) : Outcome AppVersions :=
  let channelStr := channelToStr channel in
  let key := appSlug ++ "/" ++ channelStr in
  match LRU.Get key now (cacheVersionsList sp) with
  | LRU.Deadlock => None
  | LRU.Done c (Some data, true) => Some (set_list c sp, ROk data)
  | LRU.Done c _ =>
      let sp := set_list c sp in
      match view_query st appSlug channelStr (mkQueryOpts 2000 false false) with
      | None => Some (sp, RErr (StoreError 500))
      | Some vr =>
          let allVersions := (repeat "" (TotalRows vr) ++ map fst (rows vr))%list in
          let versions := compose channel allVersions in
          match LRU.Add key versions now c with
          | LRU.Deadlock => None
          | LRU.Done c' _ => Some (set_list c' sp, ROk versions)
          end
      end
  end.

(** *** [GetAppsList] *)

Record AppsListOptions := mkAppsListOptions {
  Limit : Z;
  Cursor : Z;
  LatestVersionChannel : Channel;
  VersionsChannel : Channel
}.

Definition maxLimit : Z := 200.

Definition appsIndexes : list string :=
  ["by-slug"; "by-type"; "by-editor"; "by-category"; "by-created_at";
   "by-updated_at"].

(** [db.Find] with ["skip"] and ["limit"] over the rows matching the
    selector, in the requested order; the store refuses negative values. *)
Definition find (st : Store) (skip limit : Z) : option (list App) :=
  if (skip <? 0) || (limit <? 0) then None
  else Some (firstn (Z.to_nat limit) (skipn (Z.to_nat skip) (apps_rows st))).

Definition is_design (a : App) : bool := String.prefix "_design" (app_ID a).

(** The enrichment loop: [FindAppVersions] then [FindLatestVersion] for
    each app, an [ErrVersionNotFound] leaving [LatestVersion] nil. *)
Fixpoint enrich (st : Store) (opts : AppsListOptions) (now : Z)
                (res : list App) (sp : Space) : Outcome (list App) :=
  match res with
  | [] => Some (sp, ROk [])
  | app :: r =>
      match FindAppVersions st (app_Slug app) (VersionsChannel opts) now sp with
      | None => None
      | Some (sp, RErr e) => Some (sp, RErr e)
      | Some (sp, RPanic) => Some (sp, RPanic)
      | Some (sp, ROk vs) =>
          let k lv sp :=
            match enrich st opts now r sp with
            | Some (sp, ROk r') =>
                Some (sp, ROk (mkApp (app_ID app) (app_Slug app) (Some vs) lv :: r'))
            | o => o
            end in
          match FindLatestVersion st (app_Slug app) (LatestVersionChannel opts) now sp with
          | None => None
          | Some (sp, RErr ErrVersionNotFound) => k None sp
          | Some (sp, RErr e) => Some (sp, RErr e)
          | Some (sp, RPanic) => Some (sp, RPanic)
          | Some (sp, ROk lv) => k (Some lv) sp
          end
      end
  end.

(** The effective page size: [opts.Limit] after its defaulting and capping. *)
Definition effective_limit (l : Z) : Z :=
  if l =? 0 then 50 else if maxLimit <? l then maxLimit else l.

(** [GetAppsList]: the new cursor and the page. *)
Definition GetAppsList (st : Store) (opts : AppsListOptions) (now : Z)
                       (sp : Space) : Outcome (Z * list App) :=
  let lim := effective_limit (Limit opts) in
  let designsCount := Z.of_nat (List.length appsIndexes) in
  let limit := lim + designsCount + 1 in
  let cursor := Cursor opts in
  match find st cursor limit with
  | None => Some (sp, RErr (StoreError 400))
  | Some rs =>
      let res := filter (fun a => negb (is_design a)) rs in
      match res with
      | [] => Some (sp, ROk (-1, []))
      | _ =>
          let page :=
            if lim <? Z.of_nat (List.length res) then
              if lim <? 0 then None              (* res[:opts.Limit] panics *)
              else let res := firstn (Z.to_nat lim) res in
                   Some (cursor + Z.of_nat (List.length res), res)
            else Some (-1, res) in
          match page with
          | None => Some (sp, RPanic)
          | Some (cursor, res) =>
              match enrich st opts now res sp with
              | None => None
              | Some (sp, ROk res) => Some (sp, ROk (cursor, res))
              | Some (sp, RErr e) => Some (sp, RErr e)
              | Some (sp, RPanic) => Some (sp, RPanic)
              end
          end
      end
  end.

End Finders.

(* ================================================================== *)
(** ** Lookups by key ([finders.go]: [findApp], [findVersion],
    [FindPendingVersion], [FindPublishedVersion], [FindVersion];
    [registry.go]: [IsValidVersion]) *)

Module Lookups.

Import Grammar Download.
Local Open Scope string_scope.
Local Open Scope Z_scope.

Inductive Error :=
| ErrAppSlugInvalid
| ErrAppNotFound
| ErrVersionNotFound
| ErrVersionInvalid
| StatusError (code : Z).          (* another error of the store, by HTTP status *)

(** [row := db.Get(ctx, id); row.ScanDoc(&doc)]: the document, or the
    error with its status code ([kivik.StatusCode(err)]). *)
Inductive Row (A : Type) :=
| Doc (a : A)
| RowErr (code : Z).
Arguments Doc {A} a.
Arguments RowErr {A} code.

Definition DB (A : Type) : Type := string -> Row A.

Record Space := mkSpace {
  dbApps : DB Finders.App;
  dbVers : DB Version;
  dbPendingVers : DB Version
}.

Definition getAppID {UL : UnicodeLower} (appSlug : string) : string := ToLower appSlug.

(** [findApp] *)
Definition findApp {UL : UnicodeLower} (c : Space) (appSlug : string) : Finders.App + Error :=
  if negb (Finders.validSlug appSlug) then inr ErrAppSlugInvalid else
  match dbApps c (getAppID appSlug) with
  | Doc doc => inl doc
  | RowErr code => if code =? 404 then inr ErrAppNotFound else inr (StatusError code)
  end.

(** The loop of [findVersion] over [dbs]. *)
Fixpoint find_in (id : string) (dbs : list (DB Version)) : Version + Error :=
  match dbs with
  | [] => inr ErrVersionNotFound
  | db :: rest =>
      match db id with
      | RowErr code => if negb (code =? 404) then inr (StatusError code) else find_in id rest
      | Doc doc => inl doc
      end
  end.

(** [findVersion] *)
Definition findVersion {UL : UnicodeLower} (appSlug version : string) (dbs : list (DB Version))
  : Version + Error :=
  if negb (Finders.validSlug appSlug) then inr ErrAppSlugInvalid
  else if negb (validVersion version) then inr ErrVersionInvalid
  else find_in (getVersionID appSlug version) dbs.

Definition FindPendingVersion {UL : UnicodeLower} (c : Space) (appSlug version : string) : Version + Error :=
  findVersion appSlug version [dbPendingVers c].

Definition FindPublishedVersion {UL : UnicodeLower} (c : Space) (appSlug version : string) : Version + Error :=
  findVersion appSlug version [dbVers c].

Definition FindVersion {UL : UnicodeLower} (c : Space) (appSlug version : string) : Version + Error :=
  findVersion appSlug version [dbVers c; dbPendingVers c].

(** [hex.DecodeString]: [None] when it returns an error (odd length or a
    byte that is not a hexadecimal digit). *)
Definition hex_val (c : ascii) : option Z :=
  let n := Z.of_nat (nat_of_ascii c) in
  if (48 <=? n) && (n <=? 57) then Some (n - 48)
  else if (97 <=? n) && (n <=? 102) then Some (n - 97 + 10)
  else if (65 <=? n) && (n <=? 70) then Some (n - 65 + 10)
  else None.

Fixpoint hex_decode (s : string) : option (list Z) :=
  match s with
  | EmptyString => Some []
  | String _ EmptyString => None
  | String a (String b r) =>
      match hex_val a, hex_val b, hex_decode r with
      | Some x, Some y, Some t => Some (x * 16 + y :: t)
      | _, _, _ => None
      end
  end.

Section Validation.
(** [url.Parse(u)] succeeds. *)
Variable url_parse_ok : string -> bool.

(** [IsValidVersion]: [None] for a nil error, otherwise the fields named
    in the error, in order. *)
Definition IsValidVersion (version url sha256 : string) : option (list string) :=
  let fields :=
    ((if String.eqb version "" then ["version"] else [])
     ++ (if String.eqb url "" then ["url"]
         else if negb (url_parse_ok url) then ["url"] else [])
     ++ (match hex_decode sha256 with
         | Some h => if Nat.eqb (List.length h) 32 then [] else ["sha256"]
         | None => ["sha256"]
         end))%list in
  match fields with
  | [] => None
  | _ => Some fields
  end.

End Validation.

End Lookups.

(* ================================================================== *)
(** ** Forms stated by the specification

    These definitions follow the words of the specification, to be
    compared with the definitions above, which follow the source. *)

Module SpecForms.

Import Grammar.
Local Open Scope string_scope.

(** Any-case hexadecimal digit. *)
Definition is_hex (c : ascii) : bool :=
  let n := nat_of_ascii c in (is_lhex c || ((65 <=? n) && (n <=? 70)))%nat.

(** [MAJOR.MINOR.PATCH], each [0|[1-9][0-9]{0,4}], then nothing,
    [-beta.N] or [-dev.H] with [H] 1 to 40 characters satisfying [hexc]. *)
Definition suffix_form (hexc : ascii -> bool) (suf : string) : Prop :=
  suf = ""
  \/ (exists h, suf = "-dev." ++ h /\ all_chars hexc h = true
                /\ (1 <= String.length h <= 40)%nat)
  \/ (exists n, suf = "-beta." ++ n /\ num_ok n = true).

Definition version_form (hexc : ascii -> bool) (s : string) : Prop :=
  exists a b c suf,
    s = a ++ "." ++ b ++ "." ++ c ++ suf
    /\ num_ok a = true /\ num_ok b = true /\ num_ok c = true
    /\ suffix_form hexc suf.

(** The numeric triple of a version, as numbers. *)
Definition digit_val (c : ascii) : Z := Z.of_nat (nat_of_ascii c) - 48.

Fixpoint dec_value_acc (acc : Z) (s : string) : Z :=
  match s with
  | EmptyString => acc
  | String c s' => dec_value_acc (10 * acc + digit_val c) s'
  end.

Definition dec_value (s : string) : Z := dec_value_acc 0 s.

Definition triple_lt (a b : Z * Z * Z) : Prop :=
  let '(a0, a1, a2) := a in
  let '(b0, b1, b2) := b in
  (a0 < b0 \/ (a0 = b0 /\ a1 < b1) \/ (a0 = b0 /\ a1 = b1 /\ a2 < b2))%Z.

End SpecForms.

(* ================================================================== *)
(** ** Helper predicates and sample inputs *)

Module Helpers.

Import Grammar Download.
Local Open Scope string_scope.
Local Open Scope Z_scope.

(** [r] is empty or starts with a character other than a digit. *)
Definition starts_non_digit (r : string) : bool :=
  match r with EmptyString => true | String c _ => negb (is_digit c) end.

Definition no_dash (c : ascii) : bool := negb (Ascii.eqb c "-").
Definition no_dot (c : ascii) : bool := negb (Ascii.eqb c ".").

(** The entries an archive body holds, in order. *)
Definition body_entries (b : Body) : list Entry :=
  match b with
  | TarBody es _ | GzipBody _ _ _ es => es
  | OtherBody _ => []
  end.

(** The manifest names [downloadVersion] looks for. *)
Definition is_manifest_name (n : string) : bool :=
  String.eqb n "manifest.webapp" || String.eqb n "manifest.konnector".

(** Successive [Add]s of the keys [ks], all with value [v] at time [now]. *)
Fixpoint add_all {V : Type} (ks : list string) (v : V) (now : Z) (c : LRU.Cache V)
  : LRU.Step V unit :=
  match ks with
  | [] => LRU.Done c tt
  | k :: r =>
      match LRU.Add k v now c with
      | LRU.Deadlock => LRU.Deadlock
      | LRU.Done c' _ => add_all r v now c'
      end
  end.

(** A cache between two calls: the mutex is free and [c.cache] maps each
    key to one element of [c.ll]. *)
Definition lru_wf {V : Type} (c : LRU.Cache V) : Prop :=
  LRU.mu c = false /\ NoDup (map LRU.key (LRU.ll c)).

(** The type found by the tar loop is known once a manifest with content
    has been read. *)
Definition type_known (st : LoopState) : Prop :=
  appType st = "webapp" \/ appType st = "konnector" \/ content_len (manifestContent st) = 0.

(** Number of design documents among rows of the apps index. *)
Definition count_design (l : list Finders.App) : nat :=
  List.length (filter Finders.is_design l).

(** Non-design rows of the apps index from position [skip] on. *)
Definition remaining (l : list Finders.App) (skip : Z) : list Finders.App :=
  filter (fun a => negb (Finders.is_design a)) (skipn (Z.to_nat skip) l).

(** The comparison [VersionLess] makes of two split versions. *)
Definition lex_lt (x y : string * string * string) : bool :=
  let '(a0, a1, a2) := x in
  let '(b0, b1, b2) := y in
  if go_string_lt a0 b0 then true
  else if String.eqb a0 b0 && go_string_lt a1 b1 then true
  else if String.eqb a0 b0 && String.eqb a1 b1 && go_string_lt a2 b2 then true
  else false.

(** *** Archives *)

Definition manifest_json (version : string) : Content :=
  JsonText 60 (JObj [("editor", JStr "cozy"); ("slug", JStr "notes");
                     ("version", JStr version)]).

Definition package_json (version : string) : Content :=
  JsonText 20 (JObj [("version", JStr version)]).

Definition tar_response (es : list Entry) : Response :=
  mkResponse 200 "application/x-tar" (TarBody es 0).

(** The Content-Type a body is served with in the samples. *)
Definition natural_type (b : Body) : string :=
  match b with
  | GzipBody _ _ _ _ => "application/gzip"
  | _ => "application/x-tar"
  end.

(** Bytes the reader pulls from [b] served with that type. *)
Definition read_len (b : Body) : Z :=
  match tar_view (natural_type b) b with
  | Some (_, _, n) => n
  | None => limited_len b
  end.

(** Options whose declared sha256 is the digest of the bytes read. *)
Definition honest_opts (version : string) (b : Body) : VersionOptions :=
  mkVersionOptions version "https://example.org/app.tar"
                   (Sha256Of b (read_len b)).

(** A mapping for the non-ASCII path of [strings.ToLower], to run the
    definitions on samples. *)
Definition sample_lower : UnicodeLower := {| map_lower := fun s => s |}.

Definition c1_entries (pkg : string) : list Entry :=
  [mkEntry TypeReg "notes/manifest.webapp" (manifest_json "1.2.3");
   mkEntry TypeReg "notes/package.json" (package_json pkg)].

Definition c3_entries : list Entry :=
  [mkEntry TypeReg "a/manifest.webapp" (manifest_json "1.0.0");
   mkEntry TypeReg "b/x" (RawBytes 10);
   mkEntry TypeReg "b/y" (RawBytes 10)].



(** *** Discovery *)

Definition sample_version (id rev version : string) (atts : list string)
  : Version :=
  {| v_ID := id; v_Rev := rev; v_Attachments := atts;
     v_Slug := "notes"; v_Editor := "cozy"; v_Type := "webapp";
     v_Version := version; v_Manifest := manifest_json version;
     v_CreatedAt := 0; v_URL := "https://example.org/notes.tar";
     v_Size := 3072; v_Sha256 := Sha256Of (OtherBody 0) 0;
     v_TarPrefix := "notes" |}.

(** A store whose versions views return [vr] and whose apps index holds
    [apps]. *)
Definition const_store (vr : Finders.ViewRows) (apps : list Finders.App)
  : Finders.Store :=
  Finders.mkStore (fun _ _ _ => Some vr) apps.

Definition latest_doc : Version :=
  sample_version "notes-1.2.3" "1-abc" "1.2.3" ["icon.svg"].

Definition latest_store : Finders.Store :=
  const_store (Finders.mkViewRows 1 [("1.2.3", latest_doc)]) [].

Definition dev_store : Finders.Store :=
  const_store
    (Finders.mkViewRows 2
       [("1.0.0", sample_version "notes-1.0.0" "1-a" "1.0.0" []);
        ("1.1.0-dev.abc", sample_version "notes-1.1.0-dev.abc" "1-b" "1.1.0-dev.abc" [])])
    [].

Definition sample_app (id : string) : Finders.App :=
  Finders.mkApp id "notes" None None.

Definition apps_store : Finders.Store :=
  const_store (Finders.mkViewRows 0 [("1.0.0", sample_version "notes-1.0.0" "" "1.0.0" [])])
    [sample_app "_design/by-slug"; sample_app "notes"; sample_app "photos";
     sample_app "drive"].

Definition apps_opts : Finders.AppsListOptions :=
  Finders.mkAppsListOptions 2 0 Stable Stable.

End Helpers.

(* ================================================================== *)
(** * Proofs *)

(** ** The version grammar *)

Module GrammarFacts.

Import Grammar SpecForms Helpers.
Local Open Scope string_scope.

Example valid_1 : validVersion "1.2.3" = true. Proof. reflexivity. Qed.
Example valid_2 : validVersion "10.0.12-beta.3" = true. Proof. reflexivity. Qed.
Example valid_3 : validVersion "1.2.3-dev.abc123" = true. Proof. reflexivity. Qed.
Example valid_4 : validVersion "01.2.3" = false. Proof. reflexivity. Qed.
Example valid_5 : validVersion "1.2" = false. Proof. reflexivity. Qed.
Example valid_6 : validVersion "123456.2.3" = false. Proof. reflexivity. Qed.
Example split_1 : SplitVersion "1.2.3-beta.4" = Some ("1", "2", "3").
Proof. reflexivity. Qed.
Example split_2 : SplitVersion "1.2.3-dev.4" = Some ("1", "2", "3").
Proof. reflexivity. Qed.


Lemma all_chars_app (p : ascii -> bool) (x y : string) :
  all_chars p (x ++ y) = all_chars p x && all_chars p y.
Proof.
  induction x as [|c x IH]; simpl; [reflexivity|].
  rewrite IH. apply andb_assoc.
Qed.

Lemma all_chars_mono (p q : ascii -> bool) (s : string) :
  (forall c, p c = true -> q c = true) ->
  all_chars p s = true -> all_chars q s = true.
Proof.
  intros Hpq. induction s as [|c s IH]; simpl; [reflexivity|].
  intros H. apply andb_true_iff in H as [H1 H2].
  rewrite (Hpq c H1), (IH H2). reflexivity.
Qed.

Lemma num_ok_digits (d : string) : num_ok d = true -> all_chars is_digit d = true.
Proof.
  destruct d as [|c r]; simpl; [discriminate|].
  destruct (Ascii.eqb_spec c "0") as [->|Hc].
  - intros H. apply String.eqb_eq in H. subst r. reflexivity.
  - intros H. apply andb_true_iff in H as [H _].
    apply andb_true_iff in H as [H1 H2]. rewrite H1, H2. reflexivity.
Qed.

(** The digit run stops at the first non-digit. *)
Lemma take_digits_app (d r : string) :
  all_chars is_digit d = true -> starts_non_digit r = true ->
  take_digits (d ++ r) = (d, r).
Proof.
  intros Hd Hr. induction d as [|c d IH]; simpl.
  - destruct r as [|c r]; simpl; [reflexivity|].
    simpl in Hr. apply negb_true_iff in Hr. rewrite Hr. reflexivity.
  - simpl in Hd. apply andb_true_iff in Hd as [Hc Hd].
    rewrite Hc, (IH Hd). reflexivity.
Qed.

Lemma take_digits_spec (s d r : string) :
  take_digits s = (d, r) -> s = d ++ r /\ all_chars is_digit d = true.
Proof.
  revert d r. induction s as [|c s IH]; simpl; intros d r H.
  - inversion H; subst. split; reflexivity.
  - destruct (is_digit c) eqn:Hc.
    + destruct (take_digits s) as [d' r'] eqn:E. inversion H; subst.
      destruct (IH d' r eq_refl) as [-> Hd]. simpl. rewrite Hc, Hd. split; reflexivity.
    + inversion H; subst. split; reflexivity.
Qed.

Lemma expect_dot_spec (r r' : string) : expect_dot r = Some r' -> r = "." ++ r'.
Proof.
  destruct r as [|c r]; simpl; [discriminate|].
  destruct (Ascii.eqb_spec c "."); intros H; inversion H; subst; reflexivity.
Qed.

Lemma expect_dot_dot (r : string) : expect_dot ("." ++ r) = Some r.
Proof. reflexivity. Qed.

Lemma str_app_assoc (x y z : string) : (x ++ y) ++ z = x ++ y ++ z.
Proof. induction x as [|c x IH]; simpl; [reflexivity|]. rewrite IH. reflexivity. Qed.

Lemma prefix_empty (s : string) : String.prefix "" s = true.
Proof. destruct s; reflexivity. Qed.

Lemma prefix_app (p s : string) : String.prefix p (p ++ s) = true.
Proof.
  induction p as [|c p IH]; [destruct s; reflexivity|]. simpl.
  destruct (ascii_dec c c) as [_|n]; [exact IH|contradiction].
Qed.

Lemma prefix_drop (p s : string) :
  String.prefix p s = true -> s = p ++ drop (String.length p) s.
Proof.
  revert s. induction p as [|c p IH]; intros s H; simpl; [reflexivity|].
  destruct s as [|d s]; simpl in H; [discriminate|].
  destruct (ascii_dec c d) as [->|]; [|discriminate].
  simpl. f_equal. apply IH, H.
Qed.

Lemma digit_not_dot (c : ascii) : is_digit c = true -> Ascii.eqb c "." = false.
Proof.
  intros H. destruct (Ascii.eqb_spec c "."); [subst; discriminate|reflexivity].
Qed.

Lemma starts_non_digit_dot (r : string) : starts_non_digit ("." ++ r) = true.
Proof. reflexivity. Qed.

Lemma starts_non_digit_suffix (hexc : ascii -> bool) (suf : string) :
  suffix_form hexc suf -> starts_non_digit suf = true.
Proof.
  intros [->|[[h [-> _]]|[n [-> _]]]]; reflexivity.
Qed.

(** Every string of the canonical form (lower-case hexadecimal dev
    suffix) is accepted by [validVersionReg]. *)
Lemma version_form_valid (s : string) :
  version_form is_lhex s -> validVersion s = true.
Proof.
  intros (a & b & c & suf & -> & Ha & Hb & Hc & Hsuf).
  unfold validVersion.
  rewrite (take_digits_app a _ (num_ok_digits a Ha) (starts_non_digit_dot _)).
  rewrite Ha, expect_dot_dot.
  rewrite (take_digits_app b _ (num_ok_digits b Hb) (starts_non_digit_dot _)).
  rewrite Hb, expect_dot_dot.
  rewrite (take_digits_app c _ (num_ok_digits c Hc)
             (starts_non_digit_suffix _ _ Hsuf)).
  rewrite Hc. simpl andb.
  destruct Hsuf as [->|[[h [-> [Hh [Hl1 Hl2]]]]|[n [-> Hn]]]].
  - reflexivity.
  - unfold suffix_ok. simpl. rewrite prefix_empty, Hh.
    destruct (String.length h) as [|k]; [lia|].
    apply Nat.leb_le in Hl2. rewrite Hl2. reflexivity.
  - unfold suffix_ok. simpl. exact Hn.
Qed.

(** *** [SplitVersion] on accepted strings *)

Lemma digit_no_dash (c : ascii) : is_digit c = true -> no_dash c = true.
Proof.
  intros H. unfold no_dash. destruct (Ascii.eqb_spec c "-"); [subst; discriminate|reflexivity].
Qed.

Lemma digit_no_dot (c : ascii) : is_digit c = true -> no_dot c = true.
Proof.
  intros H. unfold no_dot. destruct (Ascii.eqb_spec c "."); [subst; discriminate|reflexivity].
Qed.

Lemma index_of_cons (pat : string) (c : ascii) (s : string) :
  index_of pat (String c s)
  = if String.prefix pat (String c s) then Some 0 else option_map S (index_of pat s).
Proof. reflexivity. Qed.

Lemma index_of_skip (q p r : string) :
  all_chars no_dash p = true ->
  index_of (String "-" q) (p ++ r)
  = option_map (Nat.add (String.length p)) (index_of (String "-" q) r).
Proof.
  intros Hp. induction p as [|c p IH].
  - simpl. destruct (index_of (String "-" q) r); reflexivity.
  - simpl in Hp. apply andb_true_iff in Hp as [Hc Hp].
    change (String c p ++ r) with (String c (p ++ r)).
    rewrite index_of_cons.
    change (String.prefix (String "-" q) (String c (p ++ r)))
      with (if ascii_dec "-" c then String.prefix q (p ++ r) else false).
    destruct (ascii_dec "-" c) as [<-|_]; [discriminate|].
    rewrite (IH Hp). destruct (index_of (String "-" q) r); reflexivity.
Qed.

Lemma take_app (p r : string) (j : nat) :
  take (String.length p + j) (p ++ r) = p ++ take j r.
Proof.
  induction p as [|c p IH]; simpl; [reflexivity|]. rewrite IH. reflexivity.
Qed.

Lemma split_at_cons (sep c : ascii) (s : string) :
  split_at sep (String c s)
  = if Ascii.eqb c sep then Some (EmptyString, s)
    else match split_at sep s with
         | Some (a, b) => Some (String c a, b)
         | None => None
         end.
Proof. reflexivity. Qed.

Lemma split_at_app (a y : string) :
  all_chars no_dot a = true -> split_at "." (a ++ "." ++ y) = Some (a, y).
Proof.
  intros Ha. induction a as [|c a IH]; [reflexivity|].
  simpl in Ha. apply andb_true_iff in Ha as [Hc Ha].
  change (String c a ++ "." ++ y) with (String c (a ++ "." ++ y)).
  rewrite split_at_cons.
  unfold no_dot in Hc. apply negb_true_iff in Hc. rewrite Hc, (IH Ha). reflexivity.
Qed.

Lemma splitN3_app (a b x : string) :
  all_chars no_dot a = true -> all_chars no_dot b = true ->
  splitN3 (a ++ "." ++ b ++ "." ++ x) = [a; b; x].
Proof.
  intros Ha Hb. unfold splitN3.
  rewrite (split_at_app a _ Ha), (split_at_app b _ Hb). reflexivity.
Qed.

(** An accepted string starts with two dot-terminated digit runs. *)
Lemma valid_two_dots (s : string) :
  validVersion s = true ->
  exists a b x, s = a ++ "." ++ b ++ "." ++ x
                /\ all_chars is_digit a = true /\ all_chars is_digit b = true.
Proof.
  unfold validVersion. intros H.
  destruct (take_digits s) as [a r1] eqn:E1.
  apply take_digits_spec in E1 as [-> Ha].
  apply andb_true_iff in H as [_ H].
  destruct (expect_dot r1) as [r1'|] eqn:D1; [|discriminate].
  apply expect_dot_spec in D1 as ->.
  destruct (take_digits r1') as [b r2] eqn:E2.
  apply take_digits_spec in E2 as [-> Hb].
  apply andb_true_iff in H as [_ H].
  destruct (expect_dot r2) as [r2'|] eqn:D2; [|discriminate].
  apply expect_dot_spec in D2 as ->.
  exists a, b, r2'. auto.
Qed.

(** Cutting such a string at the first occurrence of a pattern that starts
    with ['-'] keeps its two leading components. *)
Lemma cut_keeps_components (q a b x : string) :
  all_chars is_digit a = true -> all_chars is_digit b = true ->
  exists x', match index_of (String "-" q) (a ++ "." ++ b ++ "." ++ x) with
             | Some i => take i (a ++ "." ++ b ++ "." ++ x)
             | None => a ++ "." ++ b ++ "." ++ x
             end = a ++ "." ++ b ++ "." ++ x'.
Proof.
  intros Ha Hb.
  set (p := a ++ "." ++ b ++ ".").
  assert (Hs : a ++ "." ++ b ++ "." ++ x = p ++ x).
  { unfold p. rewrite !str_app_assoc. reflexivity. }
  assert (Hp : all_chars no_dash p = true).
  { unfold p. rewrite !all_chars_app.
    rewrite (all_chars_mono _ _ a digit_no_dash Ha),
            (all_chars_mono _ _ b digit_no_dash Hb). reflexivity. }
  rewrite Hs, (index_of_skip q p x Hp).
  destruct (index_of (String "-" q) x) as [j|]; cbn [option_map].
  - exists (take j x). rewrite take_app. unfold p. rewrite !str_app_assoc. reflexivity.
  - exists x. symmetry. exact Hs.
Qed.

Lemma SplitVersion_valid (s : string) :
  validVersion s = true -> exists v, SplitVersion s = Some v.
Proof.
  intros H. destruct (valid_two_dots s H) as (a & b & x & -> & Ha & Hb).
  pose proof (all_chars_mono _ _ a digit_no_dot Ha) as Ha'.
  pose proof (all_chars_mono _ _ b digit_no_dot Hb) as Hb'.
  unfold SplitVersion.
  destruct (GetVersionChannel (a ++ "." ++ b ++ "." ++ x)).
  - rewrite (splitN3_app a b x Ha' Hb'). eexists; reflexivity.
  - destruct (cut_keeps_components "beta." a b x Ha Hb) as [x' Hx'].
    unfold betaSuffix. rewrite Hx', (splitN3_app a b x' Ha' Hb'). eexists; reflexivity.
  - destruct (cut_keeps_components "dev." a b x Ha Hb) as [x' Hx'].
    unfold devSuffix. rewrite Hx', (splitN3_app a b x' Ha' Hb'). eexists; reflexivity.
Qed.

(** *** Claims about the grammar *)

(** Claim C7: the validator accepts exactly [MAJOR.MINOR.PATCH],
    optionally followed by [-beta.N] or by [-dev.H].  The dot of
    [-beta.] is not escaped in [validVersionReg], so any one rune but a
    newline is accepted in its place: ["1.2.3-betaX4"] and
    ["1.2.3-beta\u00e91"] (the two bytes [C3 A9] of [e] with an acute
    accent, then [1]) are accepted, and the first is of none of the
    specified forms. *)
Theorem C7_beta_separator_unescaped :
  validVersion "1.2.3-betaX4" = true
  /\ ~ version_form is_hex "1.2.3-betaX4"
  /\ validVersion ("1.2.3-beta" ++ String "195" (String "169" "1")) = true.
Proof.
  split; [reflexivity|]. split; [|reflexivity].
  intros (a & b & c & suf & E & Ha & Hb & Hc & Hs).
  pose proof (f_equal take_digits E) as T.
  rewrite (take_digits_app a _ (num_ok_digits a Ha) (starts_non_digit_dot _)) in T.
  cbn in T. injection T as <- T.
  pose proof (f_equal take_digits T) as T2.
  rewrite (take_digits_app b (String "." (c ++ suf)) (num_ok_digits b Hb) eq_refl) in T2.
  cbn in T2. injection T2 as <- T2.
  pose proof (f_equal take_digits T2) as T3.
  rewrite (take_digits_app c _ (num_ok_digits c Hc) (starts_non_digit_suffix _ _ Hs)) in T3.
  cbn in T3. injection T3 as <- <-.
  destruct Hs as [E'|[[h [E' _]]|[n [E' _]]]]; discriminate E'.
Qed.

(** Claim C10: [SplitVersion], [VersionMatch] and [VersionLess] return
    normally on every string accepted by the version grammar, and panic
    (index out of range) on ["1.2"], which the grammar rejects. *)
Theorem C10_split_version_partial :
  (forall s, validVersion s = true -> exists v, SplitVersion s = Some v) /\
  (forall a b, validVersion a = true -> validVersion b = true ->
     (exists r, VersionMatch a b = Some r) /\ (exists r, VersionLess a b = Some r)) /\
  validVersion "1.2" = false /\ SplitVersion "1.2" = None /\
  VersionMatch "1.2" "1.2.3" = None /\ VersionLess "1.2" "1.2.3" = None.
Proof.
  split; [exact SplitVersion_valid|].
  split.
  - intros a b Ha Hb.
    destruct (SplitVersion_valid a Ha) as [[[a0 a1] a2] Ea].
    destruct (SplitVersion_valid b Hb) as [[[b0 b1] b2] Eb].
    unfold VersionMatch, VersionLess. rewrite Ea, Eb.
    split; eexists; reflexivity.
  - repeat split; reflexivity.
Qed.

Lemma C10_witness :
  validVersion "1.2.3-dev.abc" = true /\ SplitVersion "1.2.3-dev.abc" <> None.
Proof.
  assert (H : validVersion "1.2.3-dev.abc" = true) by reflexivity.
  split; [exact H|].
  destruct (proj1 C10_split_version_partial _ H) as [v Hv]. rewrite Hv. discriminate.
Defined.

(** Claim C4: on grammar-valid versions, [VersionLess a b] holds exactly
    when the numeric triple of [a] precedes that of [b].  The code compares
    the components as strings, while the versions views order them with
    [parseInt]: ["9.0.0"] and ["10.0.0"] are valid, [9 < 10], and
    [VersionLess "9.0.0" "10.0.0"] is false (and the reverse is true). *)
Theorem C4_components_compared_as_strings :
  validVersion "9.0.0" = true /\ validVersion "10.0.0" = true
  /\ triple_lt (dec_value "9", dec_value "0", dec_value "0")
               (dec_value "10", dec_value "0", dec_value "0")
  /\ VersionLess "9.0.0" "10.0.0" = Some false
  /\ VersionLess "10.0.0" "9.0.0" = Some true.
Proof.
  split; [reflexivity|]. split; [reflexivity|]. split.
  - vm_compute. left. reflexivity.
  - split; reflexivity.
Qed.

End GrammarFacts.

(* ================================================================== *)
(** ** Archive download and validation *)

Module DownloadFacts.

Import Grammar SpecForms Download Helpers.
Local Open Scope string_scope.
Local Open Scope Z_scope.

(** The name a loop iteration compares does not depend on the prefix
    tracked so far. *)
Lemma snd_step_prefix (p n : string) : snd (step_prefix p n) = logical_name n.
Proof. unfold logical_name, step_prefix. destruct (split_at "/" n) as [[]|]; reflexivity. Qed.

(** The loop over the entries never panics, and only fails with a 422. *)
Lemma scan_no_panic_422 (es : list Entry) :
  forall st, match scan st es with
             | Panic => False
             | Fail e => err_code e = StatusUnprocessableEntity
             | Ok _ => True
             end.
Proof.
  induction es as [|e es IH]; intros st; [exact I|].
  cbn [scan].
  destruct (typeflag e); [| |apply IH];
  destruct (step_prefix (prefix st) (hdr_name e)) as [p n];
  destruct (String.eqb n "package.json"); try apply IH;
  destruct (parse_package _); try apply IH; reflexivity.
Qed.

(** Without a regular file named [manifest.webapp] or [manifest.konnector]
    (at top level or under one directory), the loop leaves the manifest
    content empty. *)
Lemma scan_no_manifest (es : list Entry) :
  forall st st',
  scan st es = Ok st' ->
  content_len (manifestContent st) = 0 ->
  (forall e, In e es -> typeflag e = TypeReg ->
             is_manifest_name (logical_name (hdr_name e)) = false) ->
  content_len (manifestContent st') = 0.
Proof.
  induction es as [|e es IH]; intros st st' Hs H0 Hm.
  - cbn in Hs. injection Hs as <-. exact H0.
  - assert (Hm' : forall e', In e' es -> typeflag e' = TypeReg ->
                   is_manifest_name (logical_name (hdr_name e')) = false)
      by (intros e' Hi; apply Hm; right; exact Hi).
    cbn [scan] in Hs.
    destruct (typeflag e) eqn:Ht; [| |exact (IH _ _ Hs H0 Hm')];
    destruct (step_prefix (prefix st) (hdr_name e)) as [p n] eqn:Hsp;
    assert (Hn : n = logical_name (hdr_name e))
      by (rewrite <- (snd_step_prefix (prefix st)), Hsp; reflexivity).
    + (* regular file *)
      pose proof (Hm e (or_introl eq_refl) Ht) as Hmn.
      rewrite <- Hn in Hmn. unfold is_manifest_name in Hmn.
      apply orb_false_iff in Hmn as [E1 E2]. rewrite E1, E2 in Hs.
      destruct (String.eqb n "package.json");
        [destruct (parse_package _); [|discriminate]|];
        exact (IH _ _ Hs H0 Hm').
    + (* directory: [ioutil.ReadAll] reads nothing *)
      unfold read_all in Hs. rewrite Ht in Hs.
      destruct (String.eqb n "manifest.webapp"), (String.eqb n "manifest.konnector");
      destruct (String.eqb n "package.json");
      try (destruct (parse_package _); [|discriminate]);
      exact (IH _ _ Hs ltac:(assumption) Hm') || exact (IH _ _ Hs eq_refl Hm').
Qed.

Lemma tar_read_incl (es : list Entry) :
  forall clean pos lim, incl (fst (fst (tar_read clean pos lim es))) es.
Proof.
  induction es as [|e es IH]; intros clean pos lim; cbn [tar_read].
  - repeat match goal with |- context [if ?c then _ else _] => destruct c end;
      intros x [].
  - destruct (lim <=? pos); [intros x []|].
    destruct (lim <? pos + 512); [intros x []|].
    destruct (lim <? pos + 512 + data_len e); [intros x []|].
    destruct (lim <? pos + entry_size e); [intros x [<-|[]]; left; reflexivity|].
    specialize (IH clean (pos + entry_size e) lim).
    destruct (tar_read clean (pos + entry_size e) lim es) as [[r t] n].
    cbn [fst] in *. intros x [<-|Hx]; [left; reflexivity|right; exact (IH x Hx)].
Qed.

(** The reader never reaches past the end of the stream. *)
Lemma tar_read_le (es : list Entry) :
  forall clean pos lim, snd (tar_read clean pos lim es) <= lim.
Proof.
  induction es as [|e es IH]; intros clean pos lim; cbn [tar_read].
  - destruct (Z.leb_spec lim pos); [cbn; lia|].
    destruct (Z.ltb_spec lim (pos + 512)); [cbn; lia|].
    destruct (Z.eqb_spec lim (pos + 512)); [cbn; lia|].
    destruct (Z.ltb_spec lim (pos + 1024)); cbn; lia.
  - destruct (lim <=? pos); [cbn; lia|].
    destruct (lim <? pos + 512); [cbn; lia|].
    destruct (lim <? pos + 512 + data_len e); [cbn; lia|].
    destruct (lim <? pos + entry_size e); [cbn; lia|].
    specialize (IH clean (pos + entry_size e) lim).
    destruct (tar_read clean (pos + entry_size e) lim es) as [[r t] n]. exact IH.
Qed.

Lemma tar_seek_incl (es : list Entry) :
  forall pos off p es', tar_seek pos off es = Some (p, es') -> incl es' es.
Proof.
  induction es as [|e es IH]; intros pos off p es' H; cbn [tar_seek] in H.
  - destruct (pos <=? off); [|discriminate]. injection H as _ <-. intros x [].
  - destruct (pos =? off); [injection H as _ <-; intros x Hx; exact Hx|].
    destruct (pos <? off); [|discriminate].
    intros x Hx. right. exact (IH _ _ _ _ H x Hx).
Qed.

Lemma raw_tar_view_incl (off : Z) (b : Body) :
  incl (fst (fst (raw_tar_view off b))) (body_entries b).
Proof.
  unfold raw_tar_view. cbv zeta. destruct (limited_len b <=? off); [intros x []|].
  destruct b as [es t|c nd av es|n];
    [destruct (tar_seek 0 off es) as [[p es']|] eqn:Hs|..];
    try (match goal with |- context [if ?c then _ else _] => destruct c end; intros x []).
  intros x Hx. exact (tar_seek_incl _ _ _ _ _ Hs x (tar_read_incl _ _ _ _ x Hx)).
Qed.

Lemma raw_tar_view_le (off : Z) (b : Body) :
  snd (raw_tar_view off b) <= limited_len b.
Proof.
  unfold raw_tar_view. cbv zeta. destruct (Z.leb_spec (limited_len b) off); [cbn; lia|].
  destruct b as [es t|c nd av es|n];
    [destruct (tar_seek 0 off es) as [[p es']|]; [apply tar_read_le|]|..];
    match goal with |- context [?l <? off + 512] => destruct (Z.ltb_spec l (off + 512)) end;
    cbn [snd]; lia.
Qed.

Lemma gzip_view_incl (b : Body) (es : list Entry) (t : TarEnd) (n : Z) :
  gzip_view b = Some (es, t, n) -> incl es (body_entries b).
Proof.
  unfold gzip_view. destruct b as [|c nd av es0|]; try discriminate.
  intros H. injection H as H. cbn [body_entries].
  destruct (nd <=? limited_len (GzipBody c nd av es0)).
  - pose proof (tar_read_incl es0 true 0 (tar_size es0)) as Hi.
    destruct (tar_read true 0 (tar_size es0) es0) as [[r t'] n'].
    injection H as -> _ _. exact Hi.
  - pose proof (tar_read_incl es0 false 0 av) as Hi.
    destruct (tar_read false 0 av es0) as [[r t'] n'].
    injection H as -> _ _. exact Hi.
Qed.

Lemma gzip_view_le (b : Body) (es : list Entry) (t : TarEnd) (n : Z) :
  gzip_view b = Some (es, t, n) -> n <= limited_len b.
Proof.
  unfold gzip_view. destruct b as [|c nd av es0|]; try discriminate.
  intros H. injection H as H.
  destruct (nd <=? limited_len (GzipBody c nd av es0)).
  - destruct (tar_read true 0 (tar_size es0) es0) as [[r t'] n'].
    injection H as _ _ <-. unfold bufio_pulled. apply Z.le_min_r.
  - destruct (tar_read false 0 av es0) as [[r t'] n'].
    injection H as _ _ <-. lia.
Qed.

(** The tar reader only yields entries of the archive, and pulls at most
    the bytes the limiter lets through. *)
Lemma tar_view_incl_le (ct : string) (b : Body) (es : list Entry) (t : TarEnd) (n : Z) :
  tar_view ct b = Some (es, t, n) -> incl es (body_entries b) /\ n <= limited_len b.
Proof.
  unfold tar_view. intros H.
  destruct (existsb (String.eqb ct) gzipContentTypes).
  { split; [exact (gzip_view_incl _ _ _ _ H)|exact (gzip_view_le _ _ _ _ H)]. }
  destruct (String.eqb ct "application/octet-stream").
  - destruct (gzip_view b) as [v|] eqn:Hg.
    + injection H as ->.
      split; [exact (gzip_view_incl _ _ _ _ Hg)|exact (gzip_view_le _ _ _ _ Hg)].
    + injection H as H.
      pose proof (raw_tar_view_incl (Z.min bufioDefaultSize (limited_len b)) b) as Hi.
      pose proof (raw_tar_view_le (Z.min bufioDefaultSize (limited_len b)) b) as Hl.
      rewrite H in Hi, Hl. split; [exact Hi|exact Hl].
  - injection H as H. pose proof (raw_tar_view_incl 0 b) as Hi.
    pose proof (raw_tar_view_le 0 b) as Hl.
    rewrite H in Hi, Hl. split; [exact Hi|exact Hl].
Qed.

Section WithLower.
Context {UL : UnicodeLower}.

(** A declared digest that differs from the digest of the bytes the
    reader pulled is rejected with a 422, or the download failed earlier
    with a 422. *)
Lemma checksum_reject (res : Response) (opts : VersionOptions) (now : Z) :
  (forall es n, tar_view (ContentType res) (RespBody res) = Some (es, EndEOF, n) ->
                Digest_eqb (o_sha256 opts) (Sha256Of (RespBody res) n) = false) ->
  exists r, downloadVersion (Some res) opts now
            = Fail (mkHttpError StatusUnprocessableEntity r).
Proof.
  intros H. unfold downloadVersion.
  destruct (negb (StatusCode res =? 200)); [eexists; reflexivity|].
  destruct (tar_view (ContentType res) (RespBody res)) as [[[es tend] n]|] eqn:Hv;
    [|eexists; reflexivity].
  pose proof (scan_no_panic_422 es initLoop) as S.
  destruct (scan initLoop es) as [st|[code r]|]; [| |contradiction].
  - destruct tend; try (eexists; reflexivity).
    + rewrite (H es n eq_refl). eexists; reflexivity.
    + destruct (reads_data e); eexists; reflexivity.
  - cbn in S. subst code. eexists; reflexivity.
Qed.

(** An archive without a manifest entry is rejected with a 422. *)
Lemma no_manifest_reject (res : Response) (opts : VersionOptions) (now : Z) :
  (forall e, In e (body_entries (RespBody res)) -> typeflag e = TypeReg ->
             is_manifest_name (logical_name (hdr_name e)) = false) ->
  exists r, downloadVersion (Some res) opts now
            = Fail (mkHttpError StatusUnprocessableEntity r).
Proof.
  intros Hm. unfold downloadVersion.
  destruct (negb (StatusCode res =? 200)); [eexists; reflexivity|].
  destruct (tar_view (ContentType res) (RespBody res)) as [[[es tend] n]|] eqn:Hv;
    [|eexists; reflexivity].
  pose proof (scan_no_panic_422 es initLoop) as S.
  destruct (scan initLoop es) as [st|[code r]|] eqn:Hs; [| |contradiction].
  - destruct tend; try (eexists; reflexivity).
    2: destruct (reads_data e); eexists; reflexivity.
    destruct (negb (Digest_eqb _ _)); [eexists; reflexivity|].
    assert (Hc : content_len (manifestContent st) = 0).
    { apply (scan_no_manifest es initLoop st Hs eq_refl).
      intros e Hi Ht. apply Hm; [exact (proj1 (tar_view_incl_le _ _ _ _ _ Hv) e Hi)|exact Ht]. }
    rewrite Hc. eexists; reflexivity.
  - cbn in S. subst code. eexists; reflexivity.
Qed.

(** *** Claims *)

(** Claim C1: for a non-dev requested version, a [package.json] version
    [P] different from the requested version is reported as a violation.
    The check is inverted in the code: [match = opts.Version != packVersion].
    With requested version ["1.2.3"] and a manifest of version ["1.2.3"],
    [P = "1.2.4"] is accepted and [P = "1.2.3"] is reported. *)
Theorem C1_package_version_inverted :
  (exists v, downloadVersion (Some (tar_response (c1_entries "1.2.4")))
               (honest_opts "1.2.3" (TarBody (c1_entries "1.2.4") 0)) 0 = Ok v)
  /\ downloadVersion (Some (tar_response (c1_entries "1.2.3")))
       (honest_opts "1.2.3" (TarBody (c1_entries "1.2.3") 0)) 0
     = Fail (mkHttpError StatusUnprocessableEntity
                         (ManifestMismatch [PackageJsonMismatch])).
Proof. split; [eexists|]; vm_compute; reflexivity. Qed.

(** Claim C3: the produced [tar_prefix] is the common top directory of
    the entries, or [""] when there is none.  The code uses [""] both as
    "no prefix seen yet" and as "prefixes differ": the entries
    [a/manifest.webapp], [b/x], [b/y] have no common top directory, and
    the archive is accepted with [tar_prefix = "b"]. *)
Theorem C3_prefix_reset_then_resumed :
  exists v, downloadVersion (Some (tar_response c3_entries))
              (honest_opts "1.0.0" (TarBody c3_entries 0)) 0 = Ok v
            /\ v_TarPrefix v = "b".
Proof. eexists. vm_compute. split; reflexivity. Qed.


End WithLower.

End DownloadFacts.

(* ================================================================== *)
(** ** The LRU+TTL cache *)

Module LRUFacts.

Import LRU Helpers.
Local Open Scope Z_scope.

Section Facts.
Context {V : Type}.

Lemma find_entry_none (k : string) (l : list (entry V)) :
  ~ In k (map key l) -> find_entry k l = None.
Proof.
  induction l as [|e l IH]; intros H; [reflexivity|]. cbn [find_entry].
  destruct (String.eqb_spec (key e) k) as [E|_].
  - exfalso. apply H. left. exact E.
  - apply IH. intros Hi. apply H. right. exact Hi.
Qed.

(** A new key added to a cache with room is pushed to the front. *)
Lemma Add_fresh (k : string) (v : V) (now : Z) (c : Cache V) :
  mu c = false -> ~ In k (map key (ll c)) ->
  (MaxEntries c = 0 \/ Z.of_nat (List.length (ll c)) < MaxEntries c) ->
  Add k v now c = Done (mkCache (MaxEntries c) (TTL c) false (mkentry k v now :: ll c)) tt.
Proof.
  intros Hmu Hk Hroom. unfold Add. rewrite Hmu. cbn [set_mu set_ll ll MaxEntries mu TTL].
  rewrite (find_entry_none k _ Hk).
  replace (negb (MaxEntries c =? 0) && (MaxEntries c <? Z.of_nat (List.length (mkentry k v now :: ll c))))
    with false; [reflexivity|].
  cbn [List.length]. rewrite Nat2Z.inj_succ.
  destruct Hroom as [-> | Hlt]; [reflexivity|].
  symmetry. apply andb_false_iff. right. apply Z.ltb_ge. lia.
Qed.

(** A new key added to a full cache: [Add] calls [RemoveOldest], which
    locks the mutex [Add] holds. *)
Lemma Add_full (k : string) (v : V) (now : Z) (c : Cache V) :
  mu c = false -> ~ In k (map key (ll c)) -> MaxEntries c <> 0 ->
  MaxEntries c <= Z.of_nat (List.length (ll c)) ->
  Add k v now c = Deadlock.
Proof.
  intros Hmu Hk Hn Hfull. unfold Add. rewrite Hmu. cbn [set_mu set_ll ll MaxEntries mu TTL].
  rewrite (find_entry_none k _ Hk).
  replace (negb (MaxEntries c =? 0) && (MaxEntries c <? Z.of_nat (List.length (mkentry k v now :: ll c))))
    with true; [reflexivity|].
  cbn [List.length]. rewrite Nat2Z.inj_succ.
  symmetry. apply andb_true_iff. split.
  - apply negb_true_iff. apply Z.eqb_neq. exact Hn.
  - apply Z.ltb_lt. lia.
Qed.

Lemma add_all_app (l1 l2 : list string) (v : V) (now : Z) (c : Cache V) :
  add_all (l1 ++ l2) v now c
  = match add_all l1 v now c with
    | Deadlock => Deadlock
    | Done c' _ => add_all l2 v now c'
    end.
Proof.
  revert c. induction l1 as [|k l1 IH]; intros c; [reflexivity|].
  cbn [app add_all]. destruct (Add k v now c); [apply IH|reflexivity].
Qed.

(** Distinct keys added to a cache with room for all of them. *)
Lemma add_all_fill (ks : list string) (v : V) (now : Z) :
  forall c, NoDup ks -> mu c = false -> MaxEntries c <> 0 ->
  (forall k, In k ks -> ~ In k (map key (ll c))) ->
  Z.of_nat (List.length (ll c) + List.length ks) <= MaxEntries c ->
  exists l, add_all ks v now c = Done (mkCache (MaxEntries c) (TTL c) false l) tt
            /\ map key l = (rev ks ++ map key (ll c))%list.
Proof.
  induction ks as [|k ks IH]; intros c Hnd Hmu Hn Hfresh Hroom.
  - exists (ll c). split; [|reflexivity].
    destruct c as [m t b l]. cbn in Hmu |- *. subst b. reflexivity.
  - inversion Hnd as [|? ? Hnotin Hnd']. subst.
    cbn [add_all].
    rewrite (Add_fresh k v now c Hmu (Hfresh k (or_introl eq_refl)));
      [|right; cbn [List.length] in Hroom; lia].
    destruct (IH (mkCache (MaxEntries c) (TTL c) false (mkentry k v now :: ll c)))
      as [l [Hl Hkeys]]; cbn [ll mu MaxEntries TTL]; auto.
    + intros k' Hk' Hin'. cbn [map key] in Hin'. destruct Hin' as [E|Hin].
      * subst. exact (Hnotin Hk').
      * exact (Hfresh k' (or_intror Hk') Hin).
    + cbn [List.length] in Hroom |- *. lia.
    + exists l. split; [exact Hl|]. rewrite Hkeys. cbn [rev map key].
      rewrite <- app_assoc. reflexivity.
Qed.

End Facts.

(** Extra: after [Add(k, v)] into a new cache with [N > 0] and [T > 0], a
    [Get(k)] at most [T] later returns [(v, true)], and a [Get(k)] more than
    [T] later removes the entry and reports a miss. *)
Theorem Get_after_Add {V : Type} (N T now now' : Z) (k : string) (v : V) :
  0 < N -> 0 < T ->
  exists c, Add k v now (New N T) = Done c tt
    /\ (now' - now <= T -> exists c', Get k now' c = Done c' (Some v, true))
    /\ (T < now' - now ->
        exists c', Get k now' c = Done c' (None, false) /\ find_entry k (ll c') = None).
Proof.
  intros HN HT.
  exists (mkCache N T false [mkentry k v now]). split.
  - apply Add_fresh; cbn; [reflexivity|intros []|right; lia].
  - assert (Hk : String.eqb k k = true) by apply String.eqb_refl.
    assert (HT0 : (T =? 0) = false) by (apply Z.eqb_neq; lia).
    split; intros Hage; unfold Get; cbn [mu ll TTL find_entry key]; rewrite Hk, HT0;
      cbn [date value orb].
    + replace (now' - now <=? T) with true by (symmetry; apply Z.leb_le; lia).
      eexists. reflexivity.
    + replace (now' - now <=? T) with false by (symmetry; apply Z.leb_gt; lia).
      eexists. split; [reflexivity|]. cbn. rewrite Hk. reflexivity.
Qed.

Lemma Get_after_Add_witness :
  0 < 1 /\ 0 < 60 /\
  exists c, Add "a"%string 7%Z 0 (New 1 60) = Done c tt
    /\ exists c', Get "a"%string 30 c = Done c' (Some 7%Z, true).
Proof.
  split; [lia|]. split; [lia|].
  destruct (Get_after_Add 1 60 0 30 "a"%string 7%Z) as (c & Hc & Hget & _); try lia.
  exists c. split; [exact Hc|]. apply Hget. lia.
Defined.

(** Claim C8: with capacity [N > 0], after [N+1] [Add]s of distinct keys
    the least recently used key is absent.  The [(N+1)]-th [Add] never
    returns: it calls [RemoveOldest] while holding [c.mu], and
    [RemoveOldest] locks [c.mu] again. *)
Theorem C8_eviction_deadlocks {V : Type} (N T now : Z) (ks : list string)
        (k : string) (v : V) :
  0 < N -> NoDup (ks ++ [k]) -> List.length ks = Z.to_nat N ->
  add_all (ks ++ [k]) v now (New N T) = Deadlock.
Proof.
  intros HN Hnd Hlen. rewrite add_all_app.
  assert (Hks : NoDup ks) by (apply NoDup_app_remove_r in Hnd; exact Hnd).
  destruct (add_all_fill ks v now (New N T)) as [l [Hl Hkeys]];
    cbn [New ll mu MaxEntries List.length map]; auto; try lia.
  assert (Hk : ~ In k (map key l)).
  { rewrite Hkeys, app_nil_r. rewrite <- in_rev. intros Hin.
    apply (NoDup_remove_2 ks [] k Hnd). rewrite app_nil_r. exact Hin. }
  assert (Hfull : N <= Z.of_nat (List.length l)).
  { rewrite <- (length_map key l), Hkeys, app_nil_r, length_rev. lia. }
  cbn [New MaxEntries TTL] in Hl. rewrite Hl. cbn [add_all].
  rewrite (Add_full k v now (mkCache N T false l) eq_refl Hk); [reflexivity|cbn; lia|exact Hfull].
Qed.

Lemma C8_witness : 0 < 1 /\ add_all ["a"; "b"]%string 7%Z 0 (New 1 60) = Deadlock.
Proof.
  split; [lia|].
  apply (C8_eviction_deadlocks 1 60 0 ["a"%string] "b"%string 7%Z).
  - lia.
  - repeat constructor; cbn; intuition discriminate.
  - reflexivity.
Defined.

End LRUFacts.

(* ================================================================== *)
(** ** Discovery *)

Module FinderFacts.

Import Grammar Download Finders Helpers.
Local Open Scope string_scope.
Local Open Scope Z_scope.

(** *** Counting rows *)

Lemma filter_split {A : Type} (f : A -> bool) (l : list A) :
  (List.length (filter f l) + List.length (filter (fun x => negb (f x)) l))%nat
  = List.length l.
Proof.
  induction l as [|x l IH]; [reflexivity|]. cbn [filter List.length].
  destruct (f x); cbn [negb List.length]; lia.
Qed.

Lemma filter_firstn_le {A : Type} (f : A -> bool) (n : nat) (l : list A) :
  (List.length (filter f (firstn n l)) <= List.length (filter f l))%nat.
Proof.
  revert l. induction n as [|n IH]; intros l; [cbn; lia|].
  destruct l as [|x l]; [cbn; lia|]. cbn [firstn filter].
  specialize (IH l). destruct (f x); cbn [List.length]; lia.
Qed.

Lemma filter_skipn_le {A : Type} (f : A -> bool) (n : nat) (l : list A) :
  (List.length (filter f (skipn n l)) <= List.length (filter f l))%nat.
Proof.
  revert l. induction n as [|n IH]; intros l; [cbn; lia|].
  destruct l as [|x l]; [cbn; lia|]. cbn [skipn filter].
  specialize (IH l). destruct (f x); cbn [List.length]; lia.
Qed.

(** A window of [n + 7] rows holding at most 6 design documents and at
    most [n] other rows is the whole rest of the index. *)
Lemma window_end (R : list App) (n : nat) :
  (count_design R <= 6)%nat ->
  (List.length (filter (fun a => negb (is_design a)) (firstn (n + 7) R)) <= n)%nat ->
  (List.length (filter (fun a => negb (is_design a)) R) <= n)%nat.
Proof.
  intros Hd Hw.
  destruct (Nat.le_gt_cases (List.length R) (n + 7)) as [Hle|Hgt].
  - rewrite (firstn_all2 _ Hle) in Hw. exact Hw.
  - exfalso.
    pose proof (filter_split is_design (firstn (n + 7) R)) as Hs.
    rewrite length_firstn in Hs.
    pose proof (filter_firstn_le is_design (n + 7) R) as Hf.
    unfold count_design in Hd. lia.
Qed.

(** Enrichment keeps the page: same documents, in the same order. *)
Lemma enrich_ids (st : Store) (opts : AppsListOptions) (now : Z) (res : list App) :
  forall sp sp' r', enrich st opts now res sp = Some (sp', ROk r') ->
  map app_ID r' = map app_ID res.
Proof.
  induction res as [|a res IH]; intros sp sp' r' H; cbn [enrich] in H.
  - injection H as _ <-. reflexivity.
  - destruct (FindAppVersions st (app_Slug a) (VersionsChannel opts) now sp)
      as [[sp1 [vs|e|]]|]; try discriminate.
    destruct (FindLatestVersion st (app_Slug a) (LatestVersionChannel opts) now sp1)
      as [[sp2 [lv|[| |c]|]]|]; try discriminate;
    destruct (enrich st opts now res sp2) as [[sp3 [r3|e|]]|] eqn:E; try discriminate;
    injection H as _ <-; cbn [map app_ID]; f_equal; exact (IH _ _ _ E).
Qed.

Lemma effective_limit_range (l : Z) :
  0 <= l -> 0 <= effective_limit l <= maxLimit.
Proof.
  unfold effective_limit, maxLimit. intros H.
  destruct (Z.eqb_spec l 0); [lia|]. destruct (Z.ltb_spec 200 l); lia.
Qed.

(** *** Claims *)

(** Claim C2: on the Dev channel, [dev] is the list of versions the dev
    view yields, [stable] its stable versions and [beta] its stable and
    beta versions.  The code starts the list with [TotalRows] empty
    strings ([make([]string, n)] then [append]), and its [fallthrough] into
    [default] puts dev versions into [beta]: for a view with 2 rows
    ["1.0.0"] and ["1.1.0-dev.abc"], [dev] has two leading [""], [stable]
    holds them too, and [beta] holds ["1.1.0-dev.abc"]. *)
Theorem C2_dev_lists_padded_and_leaky :
  exists sp, FindAppVersions dev_store "notes" Dev 0 initSpace
             = Some (sp, ROk (mkAppVersions
                                ["";""; "1.0.0"]
                                ["";""; "1.0.0"; "1.1.0-dev.abc"]
                                ["";""; "1.0.0"; "1.1.0-dev.abc"])).
Proof. eexists. vm_compute. reflexivity. Qed.

(** Claim C5: every Version returned by [FindLatestVersion] has empty
    id, rev and attachments, and a cache hit returns what the fresh read
    returned.  The cache keeps the raw document and a hit returns it
    decoded without stripping: a second call within the TTL returns the
    document's [_id], [_rev] and attachments. *)
Theorem C5_cache_hit_not_stripped :
  exists sp1 sp2 v1 v2,
    FindLatestVersion latest_store "notes" Stable 0 initSpace = Some (sp1, ROk v1)
    /\ FindLatestVersion latest_store "notes" Stable minute sp1 = Some (sp2, ROk v2)
    /\ v_ID v1 = "" /\ v_Rev v1 = "" /\ v_Attachments v1 = []
    /\ v_ID v2 = "notes-1.2.3" /\ v_Rev v2 = "1-abc" /\ v_Attachments v2 = ["icon.svg"].
Proof.
  do 4 eexists. split; [vm_compute; reflexivity|].
  split; [vm_compute; reflexivity|].
  repeat split; reflexivity.
Qed.

(** Claim C9: for a non-negative limit and cursor, over an apps index
    holding at most [len(appsIndexes)] design documents, a successful
    [GetAppsList] returns no [_design] document, at most [limit] items
    ([limit] defaulting to 50 and capped at 200), and the cursor [-1]
    exactly when no further documents follow; otherwise the old cursor
    plus the number of items returned. *)
Theorem C9_apps_list_page (st : Store) (opts : AppsListOptions) (now : Z)
        (sp sp' : Space) (cur : Z) (res : list App) :
  0 <= Limit opts -> 0 <= Cursor opts ->
  (count_design (apps_rows st) <= List.length appsIndexes)%nat ->
  GetAppsList st opts now sp = Some (sp', ROk (cur, res)) ->
  let lim := effective_limit (Limit opts) in
  (Limit opts = 0 -> lim = 50) /\ (maxLimit < Limit opts -> lim = maxLimit)
  /\ (forall a, In a res -> String.prefix "_design" (app_ID a) = false)
  /\ Z.of_nat (List.length res) <= lim
  /\ (cur = -1 <->
      Z.of_nat (List.length (remaining (apps_rows st) (Cursor opts))) <= lim)
  /\ (cur <> -1 -> cur = Cursor opts + Z.of_nat (List.length res)).
Proof.
  intros Hl Hc Hd H lim.
  pose proof (effective_limit_range _ Hl) as Hr. fold lim in Hr.
  assert (Hdef : (Limit opts = 0 -> lim = 50) /\ (maxLimit < Limit opts -> lim = maxLimit)).
  { unfold lim, effective_limit. split; intros E.
    - rewrite E. reflexivity.
    - destruct (Z.eqb_spec (Limit opts) 0); [unfold maxLimit in E; lia|].
      apply Z.ltb_lt in E. rewrite E. reflexivity. }
  split; [exact (proj1 Hdef)|]. split; [exact (proj2 Hdef)|].
  unfold GetAppsList in H. fold lim in H.
  change (Z.of_nat (List.length appsIndexes)) with 6 in H.
  change (List.length appsIndexes) with 6%nat in Hd.
  unfold find in H.
  replace ((Cursor opts <? 0) || (lim + 6 + 1 <? 0)) with false in H
    by (symmetry; apply orb_false_iff; split; apply Z.ltb_ge; lia).
  set (R := skipn (Z.to_nat (Cursor opts)) (apps_rows st)) in H.
  assert (HdR : (count_design R <= 6)%nat).
  { unfold count_design, R. pose proof (filter_skipn_le is_design (Z.to_nat (Cursor opts)) (apps_rows st)).
    unfold count_design in Hd. lia. }
  replace (Z.to_nat (lim + 6 + 1)) with (Z.to_nat lim + 7)%nat in H by lia.
  set (nd := fun a => negb (is_design a)) in H.
  assert (Hrem : remaining (apps_rows st) (Cursor opts) = filter nd R) by reflexivity.
  rewrite Hrem.
  pose proof (window_end R (Z.to_nat lim) HdR) as Hend. fold nd in Hend.
  pose proof (filter_firstn_le nd (Z.to_nat lim + 7) R) as Hwin.
  assert (Hnd : forall a, In a (filter nd (firstn (Z.to_nat lim + 7) R)) ->
                String.prefix "_design" (app_ID a) = false).
  { intros a Ha. apply filter_In in Ha as [_ Ha]. unfold nd, is_design in Ha.
    apply negb_true_iff in Ha. exact Ha. }
  destruct (filter nd (firstn (Z.to_nat lim + 7) R)) as [|a0 rest] eqn:Hres.
  - injection H as _ <- <-. cbn [List.length In].
    split; [intros a []|]. split; [lia|]. split; [|intros E; contradiction].
    split; [intros _|intros _; reflexivity].
    specialize (Hend ltac:(cbn; lia)). lia.
  - set (page := a0 :: rest) in *.
    (* the documents returned are those of the page, enriched *)
    assert (Hsame : forall p r', enrich st opts now p sp = Some (sp', ROk r') ->
              (forall a, In a p -> String.prefix "_design" (app_ID a) = false) ->
              List.length r' = List.length p
              /\ forall a, In a r' -> String.prefix "_design" (app_ID a) = false).
    { intros p r' He Hp. pose proof (enrich_ids _ _ _ _ _ _ _ He) as Hids. split.
      - rewrite <- (length_map app_ID r'), <- (length_map app_ID p), Hids. reflexivity.
      - intros a Ha. assert (Hin : In (app_ID a) (map app_ID p))
          by (rewrite <- Hids; apply in_map; exact Ha).
        apply in_map_iff in Hin as (a' & Ea & Ha'). rewrite <- Ea. exact (Hp a' Ha'). }
    destruct (Z.ltb_spec lim (Z.of_nat (List.length page))) as [Hlt|Hge].
    + destruct (Z.ltb_spec lim 0) as [|_]; [lia|].
      destruct (enrich st opts now (firstn (Z.to_nat lim) page) sp)
        as [[sp3 [r3|e|]]|] eqn:He; try discriminate.
      injection H as E1 E2 E3. subst sp' cur res.
      assert (Hp : forall a, In a (firstn (Z.to_nat lim) page) ->
                   String.prefix "_design" (app_ID a) = false)
        by (intros a Ha; apply Hnd; rewrite <- (firstn_skipn (Z.to_nat lim) page);
            apply in_or_app; left; exact Ha).
      destruct (Hsame _ _ He Hp) as [Hlen Hall].
      rewrite length_firstn in Hlen.
      assert (Hmin : Nat.min (Z.to_nat lim) (List.length page) = Z.to_nat lim) by lia.
      rewrite Hmin in Hlen.
      split; [exact Hall|]. rewrite Hlen. split; [lia|]. split.
      * split; intros E; [lia|]. lia.
      * intros _. rewrite length_firstn, Hmin. reflexivity.
    + destruct (enrich st opts now page sp) as [[sp3 [r3|e|]]|] eqn:He; try discriminate.
      injection H as E1 E2 E3. subst sp' cur res.
      destruct (Hsame _ _ He Hnd) as [Hlen Hall].
      split; [exact Hall|]. rewrite Hlen. split; [lia|]. split.
      * split; [intros _|intros _; reflexivity].
        specialize (Hend ltac:(lia)). lia.
      * intros E; contradiction.
Qed.

Lemma C9_witness :
  exists sp' cur res,
    GetAppsList apps_store apps_opts 0 initSpace = Some (sp', ROk (cur, res))
    /\ cur = 2 /\ Z.of_nat (List.length res) <= effective_limit (Limit apps_opts)
    /\ (forall a, In a res -> String.prefix "_design" (app_ID a) = false).
Proof.
  destruct (GetAppsList apps_store apps_opts 0 initSpace) as [[sp' [[cur res]|e|]]|] eqn:E;
    try (vm_compute in E; discriminate).
  destruct (C9_apps_list_page apps_store apps_opts 0 initSpace sp' cur res)
    as (_ & _ & Hno & Hlen & _ & Hcur); [cbn; lia|cbn; lia|apply Nat.leb_le; vm_compute; reflexivity|exact E|].
  exists sp', cur, res. split; [reflexivity|]. split; [|split; [exact Hlen|exact Hno]].
  vm_compute in E. injection E as _ <- _. reflexivity.
Defined.

End FinderFacts.

(* ================================================================== *)
(** ** Channels, splitting and ordering of versions *)

Module VersionFacts.

Import Grammar SpecForms Helpers GrammarFacts.
Local Open Scope string_scope.

Lemma str_app_nil (s : string) : s ++ "" = s.
Proof. induction s as [|c s IH]; simpl; [reflexivity|]. rewrite IH. reflexivity. Qed.

Lemma index_of_nodash (q r : string) :
  all_chars no_dash r = true -> index_of (String "-" q) r = None.
Proof.
  intros H. rewrite <- (str_app_nil r), (index_of_skip q r "" H). reflexivity.
Qed.

Lemma index_of_here (q r : string) : index_of (String "-" q) (String "-" q ++ r) = Some 0.
Proof.
  change (String "-" q ++ r) with (String "-" (q ++ r)).
  rewrite index_of_cons. change (String "-" (q ++ r)) with (String "-" q ++ r).
  rewrite prefix_app. reflexivity.
Qed.

Lemma digits_no_dash (d : string) : num_ok d = true -> all_chars no_dash d = true.
Proof. intros H. exact (all_chars_mono _ _ _ digit_no_dash (num_ok_digits d H)). Qed.

Lemma digits_no_dot (d : string) : num_ok d = true -> all_chars no_dot d = true.
Proof. intros H. exact (all_chars_mono _ _ _ digit_no_dot (num_ok_digits d H)). Qed.

Lemma triple_no_dash (a b c : string) :
  num_ok a = true -> num_ok b = true -> num_ok c = true ->
  all_chars no_dash (a ++ "." ++ b ++ "." ++ c) = true.
Proof.
  intros Ha Hb Hc. rewrite !all_chars_app.
  rewrite (digits_no_dash a Ha), (digits_no_dash b Hb), (digits_no_dash c Hc).
  reflexivity.
Qed.

Lemma triple_app (a b c suf : string) :
  a ++ "." ++ b ++ "." ++ c ++ suf = (a ++ "." ++ b ++ "." ++ c) ++ suf.
Proof. rewrite !str_app_assoc. reflexivity. Qed.

Lemma index_dev_in_beta (n : string) :
  num_ok n = true -> index_of devSuffix ("-beta." ++ n) = None.
Proof.
  intros Hn. unfold devSuffix.
  change ("-beta." ++ n) with (String "-" ("beta." ++ n)).
  rewrite index_of_cons.
  change (String.prefix "-dev." (String "-" ("beta." ++ n))) with false.
  rewrite (index_of_nodash "dev." ("beta." ++ n)); [reflexivity|].
  rewrite all_chars_app, (digits_no_dash n Hn). reflexivity.
Qed.

(** The positions of the channel markers in a version with a suffix. *)
Lemma markers (a b c suf : string) :
  num_ok a = true -> num_ok b = true -> num_ok c = true ->
  let p := a ++ "." ++ b ++ "." ++ c in
  index_of devSuffix (a ++ "." ++ b ++ "." ++ c ++ suf)
    = option_map (Nat.add (String.length p)) (index_of devSuffix suf)
  /\ index_of betaSuffix (a ++ "." ++ b ++ "." ++ c ++ suf)
    = option_map (Nat.add (String.length p)) (index_of betaSuffix suf).
Proof.
  intros Ha Hb Hc p. rewrite triple_app. fold p.
  pose proof (triple_no_dash a b c Ha Hb Hc) as Hp. fold p in Hp.
  split; [exact (index_of_skip "dev." p suf Hp)|exact (index_of_skip "beta." p suf Hp)].
Qed.

(** Extra: the channel of a version [a.b.c] (numeric components) is
    Stable, that of [a.b.c-dev.H] is Dev for any [H], and that of
    [a.b.c-beta.N] (numeric [N]) is Beta. *)
Theorem GetVersionChannel_suffix (a b c : string) :
  num_ok a = true -> num_ok b = true -> num_ok c = true ->
  GetVersionChannel (a ++ "." ++ b ++ "." ++ c) = Stable
  /\ (forall h, GetVersionChannel (a ++ "." ++ b ++ "." ++ c ++ "-dev." ++ h) = Dev)
  /\ (forall n, num_ok n = true ->
       GetVersionChannel (a ++ "." ++ b ++ "." ++ c ++ "-beta." ++ n) = Beta).
Proof.
  intros Ha Hb Hc. split; [|split].
  - rewrite <- (str_app_nil c). unfold GetVersionChannel, contains.
    destruct (markers a b c "" Ha Hb Hc) as [-> ->]. reflexivity.
  - intros h. unfold GetVersionChannel, contains.
    destruct (markers a b c ("-dev." ++ h) Ha Hb Hc) as [-> _].
    unfold devSuffix. rewrite index_of_here. reflexivity.
  - intros n Hn. unfold GetVersionChannel, contains.
    destruct (markers a b c ("-beta." ++ n) Ha Hb Hc) as [-> ->].
    rewrite (index_dev_in_beta n Hn). unfold betaSuffix.
    rewrite index_of_here. reflexivity.
Qed.

Lemma GetVersionChannel_suffix_witness :
  num_ok "1" = true /\ GetVersionChannel "1.1.1-beta.2" = Beta.
Proof.
  split; [reflexivity|].
  exact (proj2 (proj2 (GetVersionChannel_suffix "1" "1" "1" eq_refl eq_refl eq_refl)) "2" eq_refl).
Defined.

Lemma take_prefix_exact (p suf : string) :
  take (String.length p + 0) (p ++ suf) = p.
Proof. rewrite take_app. simpl. destruct suf; apply str_app_nil. Qed.

(** Extra: on a version of the grammar [a.b.c], [a.b.c-beta.N] or
    [a.b.c-dev.H], [SplitVersion] returns exactly the components
    [(a, b, c)], whatever the suffix; so [VersionMatch] of two such
    versions compares their components and ignores the suffixes. *)
Theorem SplitVersion_components (hexc : ascii -> bool) (a b c suf : string) :
  num_ok a = true -> num_ok b = true -> num_ok c = true -> suffix_form hexc suf ->
  SplitVersion (a ++ "." ++ b ++ "." ++ c ++ suf) = Some (a, b, c).
Proof.
  intros Ha Hb Hc Hs.
  pose proof (digits_no_dot a Ha) as Ha'. pose proof (digits_no_dot b Hb) as Hb'.
  destruct (GetVersionChannel_suffix a b c Ha Hb Hc) as (Hst & Hdv & Hbt).
  destruct (markers a b c suf Ha Hb Hc) as [Md Mb].
  unfold SplitVersion.
  destruct Hs as [->|[(h & -> & _)|(n & -> & Hn)]].
  - rewrite (str_app_nil c), Hst, (splitN3_app a b c Ha' Hb'). reflexivity.
  - rewrite Hdv, Md. unfold devSuffix. rewrite index_of_here. cbn [option_map].
    rewrite triple_app, take_prefix_exact, (splitN3_app a b c Ha' Hb'). reflexivity.
  - rewrite (Hbt n Hn), Mb. unfold betaSuffix. rewrite index_of_here. cbn [option_map].
    rewrite triple_app, take_prefix_exact, (splitN3_app a b c Ha' Hb'). reflexivity.
Qed.

Lemma SplitVersion_components_witness :
  suffix_form is_lhex "-dev.ab" /\ SplitVersion "10.0.7-dev.ab" = Some ("10", "0", "7").
Proof.
  assert (H : suffix_form is_lhex "-dev.ab").
  { right. left. exists "ab". repeat split; simpl; lia. }
  split; [exact H|].
  exact (SplitVersion_components is_lhex "10" "0" "7" "-dev.ab" eq_refl eq_refl eq_refl H).
Defined.

(** *** Go's string order *)

Lemma ascii_compare_trans (x y z : ascii) :
  Ascii.compare x y = Lt -> Ascii.compare y z = Lt -> Ascii.compare x z = Lt.
Proof.
  unfold Ascii.compare. rewrite !N.compare_lt_iff. lia.
Qed.

Lemma str_compare_refl (s : string) : String.compare s s = Eq.
Proof.
  induction s as [|c s IH]; [reflexivity|]. simpl.
  unfold Ascii.compare. rewrite N.compare_refl. exact IH.
Qed.

Lemma go_lt_irrefl (s : string) : go_string_lt s s = false.
Proof. unfold go_string_lt. rewrite str_compare_refl. reflexivity. Qed.

Lemma go_lt_trans (x y z : string) :
  go_string_lt x y = true -> go_string_lt y z = true -> go_string_lt x z = true.
Proof.
  unfold go_string_lt.
  revert y z. induction x as [|cx x IH]; intros y z Hxy Hyz;
    destruct y as [|cy y]; destruct z as [|cz z]; simpl in *; try discriminate; auto.
  destruct (Ascii.compare cx cy) eqn:E1; try discriminate;
  destruct (Ascii.compare cy cz) eqn:E2; try discriminate.
  - pose proof E1 as E. apply Ascii.compare_eq_iff in E1, E2. subst.
    rewrite E. exact (IH _ _ Hxy Hyz).
  - apply Ascii.compare_eq_iff in E1. subst. rewrite E2. reflexivity.
  - apply Ascii.compare_eq_iff in E2. subst. rewrite E1. reflexivity.
  - rewrite (ascii_compare_trans _ _ _ E1 E2). reflexivity.
Qed.

Lemma go_lt_total (x y : string) :
  go_string_lt x y = false -> go_string_lt y x = false -> x = y.
Proof.
  unfold go_string_lt. rewrite (String.compare_antisym y x).
  destruct (String.compare x y) eqn:E; simpl; try discriminate.
  - intros _ _. apply String.compare_eq_iff. exact E.
Qed.

Lemma lex_lt_iff (a0 a1 a2 b0 b1 b2 : string) :
  lex_lt (a0, a1, a2) (b0, b1, b2) = true <->
  go_string_lt a0 b0 = true
  \/ (a0 = b0 /\ go_string_lt a1 b1 = true)
  \/ (a0 = b0 /\ a1 = b1 /\ go_string_lt a2 b2 = true).
Proof.
  unfold lex_lt.
  destruct (go_string_lt a0 b0) eqn:L0;
    [split; [intros _; left; reflexivity|reflexivity]|].
  destruct (String.eqb_spec a0 b0) as [<-|N0]; cbn [andb].
  - destruct (go_string_lt a1 b1) eqn:L1;
      [split; [intros _; right; left; split; reflexivity|reflexivity]|].
    destruct (String.eqb_spec a1 b1) as [<-|N1]; cbn [andb].
    + destruct (go_string_lt a2 b2) eqn:L2.
      * split; [intros _; right; right; auto|reflexivity].
      * split; [discriminate|intros [H|[[_ H]|(_ & _ & H)]]; discriminate].
    + split; [discriminate|intros [H|[[_ H]|(_ & E & _)]]; [discriminate|discriminate|contradiction]].
  - split; [discriminate|intros [H|[[E _]|(E & _)]]; [discriminate|contradiction|contradiction]].
Qed.

Lemma VersionLess_lex (v w : string) (x y : string * string * string) :
  SplitVersion v = Some x -> SplitVersion w = Some y ->
  VersionLess v w = Some (lex_lt x y).
Proof.
  intros Hv Hw. unfold VersionLess. rewrite Hv, Hw.
  destruct x as [[a0 a1] a2], y as [[b0 b1] b2]. reflexivity.
Qed.

Lemma lex_lt_irrefl (x : string * string * string) : lex_lt x x = false.
Proof.
  destruct x as [[a0 a1] a2]. unfold lex_lt. rewrite !go_lt_irrefl, !andb_false_r.
  reflexivity.
Qed.

Lemma lex_lt_trans (x y z : string * string * string) :
  lex_lt x y = true -> lex_lt y z = true -> lex_lt x z = true.
Proof.
  destruct x as [[a0 a1] a2], y as [[b0 b1] b2], z as [[c0 c1] c2].
  rewrite !lex_lt_iff.
  intros [H1|[[E1 H1]|(E1 & F1 & H1)]] [H2|[[E2 H2]|(E2 & F2 & H2)]]; subst;
    first [ left; eapply go_lt_trans; eassumption
          | left; assumption
          | right; left; split; [reflexivity|]; eapply go_lt_trans; eassumption
          | right; left; split; [reflexivity|assumption]
          | right; right; repeat split; eapply go_lt_trans; eassumption ].
Qed.

Lemma lex_lt_total (x y : string * string * string) :
  lex_lt x y = false -> lex_lt y x = false -> x = y.
Proof.
  destruct x as [[a0 a1] a2], y as [[b0 b1] b2]. intros H1 H2.
  assert (N1 := proj2 (not_true_iff_false _) H1). rewrite lex_lt_iff in N1.
  assert (N2 := proj2 (not_true_iff_false _) H2). rewrite lex_lt_iff in N2.
  destruct (go_string_lt a0 b0) eqn:L0; [exfalso; apply N1; left; reflexivity|].
  destruct (go_string_lt b0 a0) eqn:M0; [exfalso; apply N2; left; reflexivity|].
  pose proof (go_lt_total _ _ L0 M0) as <-.
  destruct (go_string_lt a1 b1) eqn:L1; [exfalso; apply N1; right; left; auto|].
  destruct (go_string_lt b1 a1) eqn:M1; [exfalso; apply N2; right; left; auto|].
  pose proof (go_lt_total _ _ L1 M1) as <-.
  destruct (go_string_lt a2 b2) eqn:L2; [exfalso; apply N1; right; right; auto|].
  destruct (go_string_lt b2 a2) eqn:M2; [exfalso; apply N2; right; right; auto|].
  pose proof (go_lt_total _ _ L2 M2) as <-. reflexivity.
Qed.

(** Extra: on grammar-valid versions [VersionLess] is a strict order:
    irreflexive, transitive, and for any two versions exactly one of
    [VersionLess v w], [VersionLess w v] and [VersionMatch v w] holds. *)
Theorem VersionLess_strict_order :
  (forall v, validVersion v = true -> VersionLess v v = Some false)
  /\ (forall u v w, validVersion u = true -> validVersion v = true ->
        validVersion w = true ->
        VersionLess u v = Some true -> VersionLess v w = Some true ->
        VersionLess u w = Some true)
  /\ (forall v w, validVersion v = true -> validVersion w = true ->
        (VersionMatch v w = Some true <->
           VersionLess v w = Some false /\ VersionLess w v = Some false)
        /\ ~ (VersionLess v w = Some true /\ VersionLess w v = Some true)).
Proof.
  split; [|split].
  - intros v Hv. destruct (SplitVersion_valid v Hv) as [x Hx].
    rewrite (VersionLess_lex v v x x Hx Hx), lex_lt_irrefl. reflexivity.
  - intros u v w Hu Hv Hw.
    destruct (SplitVersion_valid u Hu) as [x Hx].
    destruct (SplitVersion_valid v Hv) as [y Hy].
    destruct (SplitVersion_valid w Hw) as [z Hz].
    rewrite (VersionLess_lex _ _ _ _ Hx Hy), (VersionLess_lex _ _ _ _ Hy Hz),
            (VersionLess_lex _ _ _ _ Hx Hz).
    intros H1 H2. injection H1 as H1. injection H2 as H2.
    rewrite (lex_lt_trans _ _ _ H1 H2). reflexivity.
  - intros v w Hv Hw.
    destruct (SplitVersion_valid v Hv) as [x Hx].
    destruct (SplitVersion_valid w Hw) as [y Hy].
    rewrite (VersionLess_lex _ _ _ _ Hx Hy), (VersionLess_lex _ _ _ _ Hy Hx).
    assert (Hm : VersionMatch v w = Some true <-> x = y).
    { unfold VersionMatch. rewrite Hx, Hy.
      destruct x as [[a0 a1] a2], y as [[b0 b1] b2].
      split.
      - intros H. injection H as H.
        apply andb_true_iff in H as [H H2]. apply andb_true_iff in H as [H0 H1].
        apply String.eqb_eq in H0, H1, H2. subst. reflexivity.
      - intros E. injection E as <- <- <-. rewrite !String.eqb_refl. reflexivity. }
    rewrite Hm. split.
    + split.
      * intros <-. rewrite lex_lt_irrefl. split; reflexivity.
      * intros [H1 H2]. injection H1 as H1. injection H2 as H2.
        exact (lex_lt_total _ _ H1 H2).
    + intros [H1 H2]. injection H1 as H1. injection H2 as H2.
      pose proof (lex_lt_trans _ _ _ H1 H2) as H. rewrite lex_lt_irrefl in H.
      discriminate.
Qed.

Lemma VersionLess_strict_order_witness :
  validVersion "1.2.3" = true /\ VersionLess "1.2.3" "1.2.3" = Some false
  /\ VersionMatch "1.2.3" "1.2.3-beta.1" = Some true.
Proof.
  assert (H : validVersion "1.2.3" = true) by reflexivity.
  split; [exact H|]. split.
  - exact (proj1 VersionLess_strict_order _ H).
  - apply (proj2 (proj1 (proj2 (proj2 VersionLess_strict_order) "1.2.3" "1.2.3-beta.1" H eq_refl))).
    split; reflexivity.
Defined.

(** Extra: [strToChannel] and [channelToStr] are inverse: every channel's
    name parses back to it without error, a name parsed without error is
    the channel's name, and any other string gives [Stable] with
    [ErrChannelInvalid]. *)
Theorem strToChannel_channelToStr :
  (forall c, strToChannel (Finders.channelToStr c) = (c, None))
  /\ (forall s c, strToChannel s = (c, None) -> Finders.channelToStr c = s)
  /\ (forall s, s <> "stable" -> s <> "beta" -> s <> "dev" ->
        strToChannel s = (Stable, Some ErrChannelInvalid)).
Proof.
  split; [|split].
  - intros []; reflexivity.
  - intros s c. unfold strToChannel.
    destruct (String.eqb_spec s "stable") as [->|_]; [intros H; injection H as <-; reflexivity|].
    destruct (String.eqb_spec s "beta") as [->|_]; [intros H; injection H as <-; reflexivity|].
    destruct (String.eqb_spec s "dev") as [->|_]; [intros H; injection H as <-; reflexivity|].
    discriminate.
  - intros s H1 H2 H3. unfold strToChannel.
    apply String.eqb_neq in H1, H2, H3. rewrite H1, H2, H3. reflexivity.
Qed.

Lemma strToChannel_channelToStr_witness :
  strToChannel "dev" = (Dev, None) /\ Finders.channelToStr Dev = "dev"
  /\ strToChannel "nightly" = (Stable, Some ErrChannelInvalid).
Proof.
  split; [reflexivity|]. split.
  - exact (proj1 (proj2 strToChannel_channelToStr) "dev" Dev eq_refl).
  - apply (proj2 (proj2 strToChannel_channelToStr)); discriminate.
Defined.

End VersionFacts.

(* ================================================================== *)
(** ** The cache between calls *)

Module LRUMore.

Import LRU Helpers LRUFacts.
Local Open Scope Z_scope.

Section More.
Context {V : Type}.
Implicit Types (l : list (entry V)) (c : Cache V).

Lemma find_entry_key k l e : find_entry k l = Some e -> key e = k.
Proof.
  induction l as [|e' l IH]; cbn; [discriminate|].
  destruct (String.eqb_spec (key e') k) as [E|_]; [intros H; injection H as <-; exact E|exact IH].
Qed.

Lemma find_entry_notin k l : find_entry k l = None -> ~ In k (map key l).
Proof.
  induction l as [|e l IH]; cbn; [auto|].
  destruct (String.eqb_spec (key e) k) as [E|N]; [discriminate|].
  intros H [E|Hi]; [exact (N E)|exact (IH H Hi)].
Qed.

Lemma in_remove_key k x l : In x (map key (remove_key k l)) -> In x (map key l).
Proof.
  induction l as [|e l IH]; cbn; [auto|].
  destruct (String.eqb (key e) k); cbn; [auto|].
  intros [E|Hi]; [left; exact E|right; exact (IH Hi)].
Qed.

Lemma nodup_remove_key k l : NoDup (map key l) -> NoDup (map key (remove_key k l)).
Proof.
  induction l as [|e l IH]; cbn; [auto|]. intros Hnd.
  inversion Hnd as [|? ? Hn Hnd']; subst.
  destruct (String.eqb (key e) k); [exact Hnd'|]. cbn.
  constructor; [intros Hi; exact (Hn (in_remove_key k _ l Hi))|exact (IH Hnd')].
Qed.

Lemma find_remove_same k l : NoDup (map key l) -> find_entry k (remove_key k l) = None.
Proof.
  induction l as [|e l IH]; cbn; [auto|]. intros Hnd.
  inversion Hnd as [|? ? Hn Hnd']; subst.
  destruct (String.eqb_spec (key e) k) as [<-|N].
  - apply find_entry_none. exact Hn.
  - cbn. rewrite (proj2 (String.eqb_neq _ _) N). exact (IH Hnd').
Qed.

Lemma find_remove_other k k' l : k' <> k -> find_entry k' (remove_key k l) = find_entry k' l.
Proof.
  induction l as [|e l IH]; cbn; [auto|]. intros Hne.
  destruct (String.eqb_spec (key e) k) as [E|N].
  - rewrite E, (proj2 (String.eqb_neq k k') (not_eq_sym Hne)). reflexivity.
  - cbn. destruct (String.eqb (key e) k'); [reflexivity|exact (IH Hne)].
Qed.

Lemma length_remove_key k l : (List.length (remove_key k l) <= List.length l)%nat.
Proof.
  induction l as [|e l IH]; cbn; [auto|].
  destruct (String.eqb (key e) k); cbn; lia.
Qed.

Lemma drop_last_cons2 (e e2 : entry V) l :
  drop_last (e :: e2 :: l) = e :: drop_last (e2 :: l).
Proof. reflexivity. Qed.

Lemma nodup_drop_last l :
  NoDup (map key l) -> NoDup (map key (drop_last l))
  /\ (forall x, In x (map key (drop_last l)) -> In x (map key l)).
Proof.
  induction l as [|e l IH]; [intros _; split; [constructor|cbn; auto]|].
  destruct l as [|e2 l2]; [intros _; split; [constructor|cbn; tauto]|].
  intros Hnd. rewrite drop_last_cons2.
  inversion Hnd as [|? ? Hn Hnd']; subst.
  destruct (IH Hnd') as [H1 H2]. split.
  - cbn [map]. constructor; [intros Hi; exact (Hn (H2 _ Hi))|exact H1].
  - cbn [map]. intros x [E|Hi]; [left; exact E|right; exact (H2 x Hi)].
Qed.

(** The two results [Add] can return. *)
Lemma Add_cases k v now c c' :
  mu c = false -> Add k v now c = Done c' tt ->
  (exists e, find_entry k (ll c) = Some e
     /\ c' = mkCache (MaxEntries c) (TTL c) false (mkentry k v now :: remove_key k (ll c)))
  \/ (find_entry k (ll c) = None
     /\ c' = mkCache (MaxEntries c) (TTL c) false (mkentry k v now :: ll c)
     /\ (MaxEntries c = 0 \/ Z.of_nat (S (List.length (ll c))) <= MaxEntries c)).
Proof.
  intros Hmu. unfold Add. rewrite Hmu. cbn [set_mu set_ll ll MaxEntries mu TTL].
  destruct (find_entry k (ll c)) as [e|] eqn:F.
  - intros H. injection H as <-. left. exists e. split; reflexivity.
  - destruct (negb (MaxEntries c =? 0)
              && (MaxEntries c <? Z.of_nat (List.length (mkentry k v now :: ll c)))) eqn:C.
    + unfold RemoveOldest. cbn [mu]. discriminate.
    + intros H. injection H as <-. right. split; [reflexivity|]. split; [reflexivity|].
      apply andb_false_iff in C as [C|C].
      * left. apply negb_false_iff, Z.eqb_eq in C. exact C.
      * right. apply Z.ltb_ge in C. cbn [List.length] in C. lia.
Qed.

(** [Get] on a cache between calls returns, and leaves it between calls. *)
Lemma Get_wf k now c :
  lru_wf c -> exists c' r, Get k now c = Done c' r /\ lru_wf c' /\ TTL c' = TTL c.
Proof.
  intros [Hmu Hnd]. unfold Get. rewrite Hmu.
  destruct (find_entry k (ll c)) as [e|] eqn:F.
  - destruct ((TTL c =? 0) || (now - date e <=? TTL c)).
    + eexists; eexists; split; [reflexivity|]. split; [split; [exact Hmu|]|reflexivity].
      cbn [ll set_ll map key]. constructor.
      * apply find_entry_notin. apply find_remove_same. exact Hnd.
      * apply nodup_remove_key. exact Hnd.
    + eexists; eexists; split; [reflexivity|]. split; [split; [exact Hmu|]|reflexivity].
      apply nodup_remove_key. exact Hnd.
  - eexists; eexists; split; [reflexivity|]. split; [split; assumption|reflexivity].
Qed.

(** [Get] of the key at the front of the list, within its time to live. *)
Lemma Get_front k (v : V) d rest now' c :
  mu c = false -> ll c = mkentry k v d :: rest -> (TTL c = 0 \/ now' - d <= TTL c) ->
  exists c'', Get k now' c = Done c'' (Some v, true).
Proof.
  intros Hmu Hll Httl. unfold Get. rewrite Hmu, Hll. cbn [find_entry key].
  rewrite String.eqb_refl.
  change (date (mkentry k v d)) with d. change (value (mkentry k v d)) with v.
  replace ((TTL c =? 0) || (now' - d <=? TTL c)) with true.
  - eexists. reflexivity.
  - symmetry. apply orb_true_iff. destruct Httl as [E|E].
    + left. apply Z.eqb_eq. exact E.
    + right. apply Z.leb_le. exact E.
Qed.

(** A hit of [Get] is a hit again within the time to live. *)
Lemma Get_hit_again k (v : V) now now' c c' :
  lru_wf c -> Get k now c = Done c' (Some v, true) ->
  (TTL c = 0 \/ now' - now <= TTL c) ->
  exists c'', Get k now' c' = Done c'' (Some v, true).
Proof.
  intros [Hmu _] H Httl. unfold Get in H. rewrite Hmu in H.
  destruct (find_entry k (ll c)) as [e|]; [|discriminate].
  destruct ((TTL c =? 0) || (now - date e <=? TTL c)); [|discriminate].
  injection H as <- <-.
  apply (Get_front k (value e) now (remove_key k (ll c))); reflexivity || exact Hmu || exact Httl.
Qed.

(** After an [Add] that returns, [Get] of its key is a hit within the time to live. *)
Lemma Add_then_Get k (v : V) now now' c c' :
  lru_wf c -> Add k v now c = Done c' tt ->
  (TTL c = 0 \/ now' - now <= TTL c) ->
  TTL c' = TTL c /\ exists c'', Get k now' c' = Done c'' (Some v, true).
Proof.
  intros [Hmu _] HA Httl.
  destruct (Add_cases k v now c c' Hmu HA) as [(e & _ & ->)|(_ & -> & _)];
    (split; [reflexivity|]);
    (eapply Get_front; [reflexivity|reflexivity|exact Httl]).
Qed.

End More.

(** Extra: on a cache whose mutex is free and whose keys are distinct,
    [Get], [Remove] and [RemoveOldest] always return, and each of them and
    every [Add] that returns leaves the mutex free and the keys distinct. *)
Theorem LRU_wf_preserved {V : Type} :
  (forall k (v : V) now c c', lru_wf c -> Add k v now c = Done c' tt -> lru_wf c')
  /\ (forall k now (c : Cache V), lru_wf c ->
        exists c' r, Get k now c = Done c' r /\ lru_wf c')
  /\ (forall k (c : Cache V), lru_wf c -> exists c', Remove k c = Done c' tt /\ lru_wf c')
  /\ (forall (c : Cache V), lru_wf c -> exists c', RemoveOldest c = Done c' tt /\ lru_wf c').
Proof.
  split; [|split; [|split]].
  - intros k v now c c' [Hmu Hnd] HA.
    destruct (Add_cases k v now c c' Hmu HA) as [(e & F & ->)|(F & -> & _)];
      split; cbn [mu ll map key]; try reflexivity; constructor.
    + intros Hi. apply (find_entry_notin k (remove_key k (ll c))); [|exact Hi].
      apply find_remove_same. exact Hnd.
    + apply nodup_remove_key. exact Hnd.
    + exact (find_entry_notin k _ F).
    + exact Hnd.
  - intros k now c Hwf. destruct (Get_wf k now c Hwf) as (c' & r & H & H' & _).
    exists c', r. split; assumption.
  - intros k c [Hmu Hnd]. unfold Remove. rewrite Hmu.
    destruct (find_entry k (ll c)).
    + eexists; split; [reflexivity|]. split; [exact Hmu|]. apply nodup_remove_key. exact Hnd.
    + eexists; split; [reflexivity|]. split; assumption.
  - intros c [Hmu Hnd]. unfold RemoveOldest. rewrite Hmu.
    eexists; split; [reflexivity|]. split; [exact Hmu|]. apply nodup_drop_last. exact Hnd.
Qed.

Lemma LRU_wf_preserved_witness :
  let c1 := mkCache (V:=Z) 2 60 false [mkentry "a"%string 5 0] in
  let c2 := mkCache (V:=Z) 2 60 false [mkentry "b"%string 7 1; mkentry "a"%string 5 0] in
  lru_wf c1 /\ Add "b"%string 7 1 c1 = Done c2 tt /\ lru_wf c2
  /\ (exists c' r, Get "a"%string 3 c2 = Done c' r /\ lru_wf c')
  /\ (exists c', Remove "a"%string c2 = Done c' tt /\ lru_wf c')
  /\ (exists c', RemoveOldest c2 = Done c' tt /\ lru_wf c').
Proof.
  intros c1 c2.
  assert (H1 : lru_wf c1).
  { split; [reflexivity|]. constructor; [intros []|constructor]. }
  assert (HA : Add "b"%string 7 1 c1 = Done c2 tt) by (vm_compute; reflexivity).
  assert (H2 : lru_wf c2) by exact (proj1 LRU_wf_preserved _ _ _ _ _ H1 HA).
  split; [exact H1|]. split; [exact HA|]. split; [exact H2|].
  split; [exact (proj1 (proj2 LRU_wf_preserved) "a"%string 3 c2 H2)|].
  split; [exact (proj1 (proj2 (proj2 LRU_wf_preserved)) "a"%string c2 H2)|].
  exact (proj2 (proj2 (proj2 LRU_wf_preserved)) c2 H2).
Defined.

(** Extra: on such a cache, after an [Add(k, v)] at time [now] that
    returns, [Get(k)] at a time at most [TTL] later (or at any time when
    [TTL = 0]) returns [(v, true)], and the entries of the other keys are
    those of the cache before the [Add]. *)
Theorem Add_Get_roundtrip {V : Type} (k : string) (v : V) (now now' : Z) (c c' : Cache V) :
  lru_wf c -> Add k v now c = Done c' tt ->
  (TTL c = 0 \/ now' - now <= TTL c) ->
  (exists c'', Get k now' c' = Done c'' (Some v, true))
  /\ (forall k', k' <> k -> find_entry k' (ll c') = find_entry k' (ll c)).
Proof.
  intros [Hmu _] HA Httl.
  assert (Hc' : mu c' = false /\ TTL c' = TTL c
                /\ exists rest, ll c' = mkentry k v now :: rest
                /\ forall k', k' <> k -> find_entry k' rest = find_entry k' (ll c)).
  { destruct (Add_cases k v now c c' Hmu HA) as [(e & _ & ->)|(_ & -> & _)];
      cbn [mu TTL ll]; (split; [reflexivity|]); (split; [reflexivity|]);
      eexists; (split; [reflexivity|]); intros k' Hk'.
    - apply find_remove_other. exact Hk'.
    - reflexivity. }
  destruct Hc' as (Hmu' & Httl' & rest & Hll & Hrest). split.
  - apply (Get_front k v now rest now' c' Hmu' Hll). rewrite Httl'. exact Httl.
  - intros k' Hk'. rewrite Hll. cbn [find_entry key].
    rewrite (proj2 (String.eqb_neq k k') (not_eq_sym Hk')). exact (Hrest k' Hk').
Qed.

Lemma Add_Get_roundtrip_witness :
  exists c', Add "a"%string 5%Z 0 (New 2 0) = Done c' tt
    /\ exists c'', Get "a"%string 1000 c' = Done c'' (Some 5%Z, true).
Proof.
  assert (Hwf : lru_wf (New (V:=Z) 2 0)) by (split; [reflexivity|constructor]).
  assert (HA : Add "a"%string 5%Z 0 (New 2 0)
               = Done (mkCache 2 0 false [mkentry "a"%string 5%Z 0]) tt) by reflexivity.
  eexists. split; [exact HA|].
  exact (proj1 (Add_Get_roundtrip "a"%string 5%Z 0 1000 _ _ Hwf HA (or_introl eq_refl))).
Defined.

(** Extra: on such a cache, [Remove(k)] returns; afterwards [Get(k)] is a
    miss that leaves the cache unchanged, the entries of the other keys are
    unchanged, and removing an absent key leaves the whole cache unchanged. *)
Theorem Remove_spec {V : Type} (k : string) (now : Z) (c : Cache V) :
  lru_wf c ->
  exists c', Remove k c = Done c' tt
    /\ Get k now c' = Done c' (None, false)
    /\ (forall k', k' <> k -> find_entry k' (ll c') = find_entry k' (ll c))
    /\ (find_entry k (ll c) = None -> c' = c).
Proof.
  intros [Hmu Hnd]. unfold Remove. rewrite Hmu.
  destruct (find_entry k (ll c)) as [e|] eqn:F.
  - eexists. split; [reflexivity|]. split; [|split].
    + unfold Get. cbn [mu ll set_ll]. rewrite Hmu, (find_remove_same k _ Hnd). reflexivity.
    + intros k' Hk'. cbn [ll set_ll]. apply find_remove_other. exact Hk'.
    + discriminate.
  - eexists. split; [reflexivity|]. split; [|split].
    + unfold Get. rewrite Hmu, F. reflexivity.
    + reflexivity.
    + reflexivity.
Qed.

Lemma Remove_spec_witness :
  exists c', Remove "a"%string (mkCache 2 0 false [mkentry "a"%string 5%Z 0]) = Done c' tt
    /\ Get "a"%string 3 c' = Done c' (None, false).
Proof.
  assert (Hwf : lru_wf (mkCache 2 0 false [mkentry "a"%string 5%Z 0])).
  { split; [reflexivity|]. constructor; [intros []|constructor]. }
  destruct (Remove_spec "a"%string 3 _ Hwf) as (c' & H1 & H2 & _).
  exists c'. split; assumption.
Defined.

(** Extra: [Add] never leaves a limited cache with more than [MaxEntries]
    entries: on such a cache holding at most [MaxEntries] entries, an [Add]
    that returns keeps [MaxEntries] and holds at most [MaxEntries] entries
    (the [Add] that would need an eviction does not return). *)
Theorem Add_capacity {V : Type} (k : string) (v : V) (now : Z) (c c' : Cache V) :
  lru_wf c -> MaxEntries c <> 0 -> Z.of_nat (List.length (ll c)) <= MaxEntries c ->
  Add k v now c = Done c' tt ->
  MaxEntries c' = MaxEntries c /\ Z.of_nat (List.length (ll c')) <= MaxEntries c'.
Proof.
  intros [Hmu _] Hn Hlen HA.
  destruct (Add_cases k v now c c' Hmu HA) as [(e & F & ->)|(F & -> & [E|Hroom])];
    cbn [MaxEntries ll List.length]; split; try reflexivity.
  - assert (Hin : In k (map key (ll c))).
    { pose proof (find_entry_key _ _ _ F) as Hk.
      clear -F Hk. induction (ll c) as [|x l IH]; cbn in F |- *; [discriminate|].
      destruct (String.eqb_spec (key x) k) as [E|_]; [left; exact E|right; exact (IH F)]. }
    assert (Hlt : (List.length (remove_key k (ll c)) < List.length (ll c))%nat).
    { clear -Hin. induction (ll c) as [|x l IH]; cbn in Hin |- *; [contradiction|].
      destruct (String.eqb_spec (key x) k) as [_|N]; cbn; [lia|].
      destruct Hin as [E|Hi]; [contradiction|]. specialize (IH Hi). lia. }
    lia.
  - contradiction.
  - exact Hroom.
Qed.

Lemma Add_capacity_witness :
  exists c', Add "b"%string 1%Z 0 (mkCache 2 0 false [mkentry "a"%string 5%Z 0]) = Done c' tt
    /\ Z.of_nat (List.length (ll c')) <= MaxEntries c'.
Proof.
  assert (Hwf : lru_wf (mkCache 2 0 false [mkentry "a"%string 5%Z 0])).
  { split; [reflexivity|]. constructor; [intros []|constructor]. }
  assert (HA : Add "b"%string 1%Z 0 (mkCache 2 0 false [mkentry "a"%string 5%Z 0])
               = Done (mkCache 2 0 false [mkentry "b"%string 1%Z 0; mkentry "a"%string 5%Z 0]) tt)
    by reflexivity.
  eexists. split; [exact HA|].
  refine (proj2 (Add_capacity "b"%string 1%Z 0 _ _ Hwf _ _ HA)); cbn; [discriminate|lia].
Defined.

Lemma map_key_drop_last {V : Type} (l : list (entry V)) :
  map key (drop_last l) = removelast (map key l).
Proof.
  induction l as [|e l IH]; [reflexivity|].
  destruct l as [|e2 l2]; [reflexivity|].
  rewrite drop_last_cons2. cbn [map]. rewrite IH. reflexivity.
Qed.

(** Extra: [RemoveOldest] evicts the least recently used entry: after
    [Add]s of distinct keys [k, k1, ..., kn] into a new cache with room for
    all of them, [RemoveOldest] returns and leaves exactly [kn, ..., k1]
    (most recent first), [k] being gone. *)
Theorem RemoveOldest_evicts_first_added {V : Type} (N T now : Z) (k : string)
        (ks : list string) (v : V) :
  NoDup (k :: ks) -> Z.of_nat (S (List.length ks)) <= N ->
  exists c c', add_all (k :: ks) v now (New N T) = Done c tt
    /\ RemoveOldest c = Done c' tt /\ map key (ll c') = rev ks.
Proof.
  intros Hnd Hroom.
  destruct (add_all_fill (k :: ks) v now (New N T)) as [l [Hl Hkeys]];
    cbn [New ll mu MaxEntries List.length map]; auto; try lia.
  exists (mkCache N T false l), (mkCache N T false (drop_last l)).
  split; [exact Hl|]. split; [reflexivity|].
  cbn [ll]. rewrite map_key_drop_last, Hkeys. cbn [rev map].
  rewrite app_nil_r. apply removelast_last.
Qed.

Lemma RemoveOldest_evicts_first_added_witness :
  exists c c', add_all ["a"; "b"; "c"]%string 0%Z 0 (New 3 60) = Done c tt
    /\ RemoveOldest c = Done c' tt /\ map key (ll c') = ["c"; "b"]%string.
Proof.
  apply (RemoveOldest_evicts_first_added 3 60 0 "a"%string ["b"; "c"]%string 0%Z).
  - repeat constructor; cbn; intuition discriminate.
  - cbn. lia.
Defined.

End LRUMore.

(* ================================================================== *)
(** ** Lookups by key *)

Module LookupFacts.

Import Grammar Download Lookups Helpers.
Local Open Scope string_scope.
Local Open Scope Z_scope.

(** *** [strings.ToLower] and [validSlugReg] *)

Lemma lower_char_idem (c : ascii) : lower_char (lower_char c) = lower_char c.
Proof. destruct c as [[] [] [] [] [] [] [] []]; reflexivity. Qed.

Lemma ascii_lower_idem (s : string) : ascii_lower (ascii_lower s) = ascii_lower s.
Proof.
  induction s as [|c s IH]; [reflexivity|]. cbn [ascii_lower].
  rewrite lower_char_idem, IH. reflexivity.
Qed.

Lemma lower_char_ascii (c : ascii) :
  (nat_of_ascii (lower_char c) <? 128)%nat = (nat_of_ascii c <? 128)%nat.
Proof. destruct c as [[] [] [] [] [] [] [] []]; reflexivity. Qed.

Lemma ascii_lower_ascii (s : string) :
  is_ascii_str (ascii_lower s) = is_ascii_str s.
Proof.
  induction s as [|c s IH]; [reflexivity|]. cbn [ascii_lower is_ascii_str].
  rewrite lower_char_ascii, IH. reflexivity.
Qed.

Lemma slug_char_ascii (c : ascii) :
  (Finders.is_alpha c || is_digit c || Ascii.eqb c "-") = true ->
  (nat_of_ascii c <? 128)%nat = true.
Proof.
  destruct c as [[] [] [] [] [] [] [] []]; vm_compute; intros H;
    first [reflexivity | discriminate].
Qed.

(** A valid slug is made of ASCII bytes. *)
Lemma validSlug_ascii (s : string) :
  Finders.validSlug s = true -> is_ascii_str s = true.
Proof.
  destruct s as [|c r]; [discriminate|]. cbn [Finders.validSlug is_ascii_str].
  intros H. apply andb_true_iff in H as [Hc Hr].
  rewrite (slug_char_ascii c) by (rewrite Hc; reflexivity). cbn [andb].
  induction r as [|d r IH]; [reflexivity|].
  cbn [all_chars] in Hr. apply andb_true_iff in Hr as [Hd Hr].
  cbn [is_ascii_str]. rewrite (slug_char_ascii d Hd). exact (IH Hr).
Qed.

Lemma lower_char_alpha (c : ascii) : Finders.is_alpha (lower_char c) = Finders.is_alpha c.
Proof. destruct c as [[] [] [] [] [] [] [] []]; reflexivity. Qed.

Lemma lower_char_slug (c : ascii) :
  (Finders.is_alpha (lower_char c) || is_digit (lower_char c) || Ascii.eqb (lower_char c) "-")
  = (Finders.is_alpha c || is_digit c || Ascii.eqb c "-").
Proof. destruct c as [[] [] [] [] [] [] [] []]; reflexivity. Qed.

Lemma validSlug_ascii_lower (s : string) :
  Finders.validSlug (ascii_lower s) = Finders.validSlug s.
Proof.
  destruct s as [|c r]; [reflexivity|]. cbn [ascii_lower Finders.validSlug].
  rewrite lower_char_alpha. f_equal.
  induction r as [|d r IH]; [reflexivity|]. cbn [ascii_lower all_chars].
  rewrite lower_char_slug, IH. reflexivity.
Qed.

Section WithLower.
Context {UL : UnicodeLower}.

(** On a valid slug, [strings.ToLower] takes its ASCII path. *)
Lemma ToLower_valid (s : string) :
  Finders.validSlug s = true -> ToLower s = ascii_lower s.
Proof. intros H. unfold ToLower. rewrite (validSlug_ascii s H). reflexivity. Qed.

(** Extra: lookups ignore the case of a valid slug: its [strings.ToLower]
    is a valid slug too, and gives the same result of [findApp], and of
    [findVersion] for any version and databases. *)
Theorem lookups_ignore_slug_case (c : Space) (s : string) :
  Finders.validSlug s = true ->
  Finders.validSlug (ToLower s) = true
  /\ findApp c s = findApp c (ToLower s)
  /\ (forall version dbs, findVersion s version dbs = findVersion (ToLower s) version dbs).
Proof.
  intros Hv.
  assert (Hl : Finders.validSlug (ToLower s) = true)
    by (rewrite (ToLower_valid s Hv), validSlug_ascii_lower; exact Hv).
  assert (Hi : ToLower (ToLower s) = ToLower s)
    by (rewrite (ToLower_valid _ Hl), (ToLower_valid s Hv); apply ascii_lower_idem).
  split; [exact Hl|]. split.
  - unfold findApp, getAppID. rewrite Hv, Hl, Hi. reflexivity.
  - intros version dbs. unfold findVersion, getVersionID. rewrite Hv, Hl, Hi. reflexivity.
Qed.

End WithLower.

Lemma lookups_ignore_slug_case_witness :
  Finders.validSlug "My-App" = true
  /\ forall c, findApp (UL := sample_lower) c "My-App" = findApp (UL := sample_lower) c "my-app".
Proof.
  split; [reflexivity|].
  intros c. exact (proj1 (proj2 (@lookups_ignore_slug_case sample_lower c "My-App" eq_refl))).
Defined.

(** *** [findVersion] *)

Lemma find_in_not_found (id : string) (dbs : list (DB Version)) :
  find_in id dbs = inr ErrVersionNotFound <-> Forall (fun db => db id = RowErr 404) dbs.
Proof.
  induction dbs as [|db dbs IH]; cbn [find_in].
  - split; [constructor|reflexivity].
  - destruct (db id) as [d|code] eqn:E.
    + split; [discriminate|]. intros H. inversion H as [|? ? H1 _]. congruence.
    + destruct (Z.eqb_spec code 404) as [->|N]; cbn [negb].
      * rewrite IH. split; [intros H; constructor; assumption|].
        intros H. inversion H. assumption.
      * split; [discriminate|]. intros H. inversion H as [|? ? H1 _]. congruence.
Qed.

Section WithLower2.
Context {UL : UnicodeLower}.

(** Extra: [findVersion] reports [ErrVersionNotFound] exactly when the slug
    and the version are valid and every database searched answers 404 for
    the version's document id; an invalid slug or version is reported
    before any database is read. *)
Theorem findVersion_not_found (appSlug version : string) (dbs : list (DB Version)) :
  (findVersion appSlug version dbs = inr ErrVersionNotFound <->
     Finders.validSlug appSlug = true /\ validVersion version = true
     /\ Forall (fun db => db (getVersionID appSlug version) = RowErr 404) dbs)
  /\ (Finders.validSlug appSlug = false -> findVersion appSlug version dbs = inr ErrAppSlugInvalid)
  /\ (Finders.validSlug appSlug = true -> validVersion version = false ->
        findVersion appSlug version dbs = inr ErrVersionInvalid).
Proof.
  unfold findVersion. split; [|split].
  - destruct (Finders.validSlug appSlug); cbn [negb].
    + destruct (validVersion version); cbn [negb].
      * rewrite find_in_not_found. tauto.
      * split; [discriminate|intros (_ & H & _); discriminate].
    + split; [discriminate|intros (H & _); discriminate].
  - intros ->. reflexivity.
  - intros -> ->. reflexivity.
Qed.

(** Extra: [FindVersion] searches the published versions first: its result
    is that of [FindPublishedVersion], unless that is [ErrVersionNotFound],
    in which case it is that of [FindPendingVersion]. *)
Theorem FindVersion_published_first (c : Space) (appSlug version : string) :
  FindVersion c appSlug version
  = match FindPublishedVersion c appSlug version with
    | inr ErrVersionNotFound => FindPendingVersion c appSlug version
    | r => r
    end.
Proof.
  unfold FindVersion, FindPublishedVersion, FindPendingVersion, findVersion.
  destruct (Finders.validSlug appSlug); cbn [negb]; [|reflexivity].
  destruct (validVersion version); cbn [negb]; [|reflexivity].
  cbn [find_in]. destruct (dbVers c (getVersionID appSlug version)) as [d|code]; [reflexivity|].
  destruct (negb (code =? 404)); reflexivity.
Qed.

End WithLower2.

Lemma findVersion_not_found_witness :
  findVersion (UL := sample_lower) "notes" "1.0.0" [fun _ => RowErr 404; fun _ => RowErr 404]
    = inr ErrVersionNotFound.
Proof.
  apply (proj2 (proj1 (@findVersion_not_found sample_lower "notes" "1.0.0" _))).
  split; [reflexivity|]. split; [reflexivity|]. repeat constructor.
Defined.

(** *** [IsValidVersion] *)

Lemma hex_val_is_hex (c : ascii) :
  match hex_val c with Some _ => true | None => false end = SpecForms.is_hex c.
Proof. destruct c as [[] [] [] [] [] [] [] []]; reflexivity. Qed.

Lemma hex_decode_spec (n : nat) (s : string) :
  (String.length s <= n)%nat ->
  match hex_decode s with
  | Some h => String.length s = (2 * List.length h)%nat
              /\ all_chars SpecForms.is_hex s = true
  | None => ~ (Nat.even (String.length s) = true /\ all_chars SpecForms.is_hex s = true)
  end.
Proof.
  revert s. induction n as [|n IH]; intros s Hn.
  - destruct s; [split; reflexivity|cbn in Hn; lia].
  - destruct s as [|a [|b r]]; [split; reflexivity|cbn; intros [H _]; discriminate|].
    cbn [hex_decode String.length all_chars] in *.
    pose proof (hex_val_is_hex a) as Ea. pose proof (hex_val_is_hex b) as Eb.
    assert (Hr : (String.length r <= n)%nat) by lia.
    specialize (IH r Hr).
    destruct (hex_val a) as [x|]; [|rewrite <- Ea; cbn; intros [_ H]; discriminate].
    destruct (hex_val b) as [y|]; [|rewrite <- Eb, andb_false_r; cbn; intros [_ H]; discriminate].
    rewrite <- Ea, <- Eb. cbn [andb].
    destruct (hex_decode r) as [t|].
    + destruct IH as [L A]. split; [cbn [List.length]; lia|exact A].
    + intros [H1 H2]. apply IH. split; [|exact H2].
      rewrite Nat.even_succ, Nat.odd_succ in H1. exact H1.
Qed.

(** Extra: [IsValidVersion] accepts version options exactly when the
    version is not empty, the URL is not empty and parses, and the SHA-256
    is 64 hexadecimal digits of either case; otherwise the fields it
    names are the failing ones among version, url and sha256, in that order. *)
Theorem IsValidVersion_accepts (url_parse_ok : string -> bool) (version url sha256 : string) :
  IsValidVersion url_parse_ok version url sha256 =
    match ((if String.eqb version "" then ["version"] else [])
           ++ (if String.eqb url "" || negb (url_parse_ok url) then ["url"] else [])
           ++ (if Nat.eqb (String.length sha256) 64 && all_chars SpecForms.is_hex sha256
               then [] else ["sha256"]))%list with
    | [] => None
    | fields => Some fields
    end
  /\ (IsValidVersion url_parse_ok version url sha256 = None <->
      version <> "" /\ url <> "" /\ url_parse_ok url = true
      /\ String.length sha256 = 64%nat /\ all_chars SpecForms.is_hex sha256 = true).
Proof.
  assert (Hs : match hex_decode sha256 with
               | Some d => if Nat.eqb (List.length d) 32 then [] else ["sha256"]
               | None => ["sha256"]
               end
               = if Nat.eqb (String.length sha256) 64 && all_chars SpecForms.is_hex sha256
                 then [] else ["sha256"]).
  { pose proof (hex_decode_spec (String.length sha256) sha256 (le_n _)) as H.
    destruct (hex_decode sha256) as [d|].
    - destruct H as [L A]. rewrite A, andb_true_r.
      destruct (Nat.eqb_spec (List.length d) 32); destruct (Nat.eqb_spec (String.length sha256) 64);
        first [reflexivity | lia].
    - destruct (Nat.eqb_spec (String.length sha256) 64) as [L|L];
        destruct (all_chars SpecForms.is_hex sha256) eqn:A; cbn [andb]; try reflexivity.
      exfalso. apply H. rewrite L. split; reflexivity. }
  assert (Hu : (if String.eqb url "" then ["url"]
                else if negb (url_parse_ok url) then ["url"] else [])
               = if String.eqb url "" || negb (url_parse_ok url) then ["url"] else []).
  { destruct (String.eqb url ""); reflexivity. }
  assert (Heq : IsValidVersion url_parse_ok version url sha256 =
    match ((if String.eqb version "" then ["version"] else [])
           ++ (if String.eqb url "" || negb (url_parse_ok url) then ["url"] else [])
           ++ (if Nat.eqb (String.length sha256) 64 && all_chars SpecForms.is_hex sha256
               then [] else ["sha256"]))%list with
    | [] => None
    | fields => Some fields
    end).
  { unfold IsValidVersion. cbv zeta. rewrite Hs, Hu.
    match goal with |- match ?l with _ => _ end = _ => destruct l; reflexivity end. }
  split; [exact Heq|]. rewrite Heq.
  destruct (String.eqb_spec version "") as [Ev|Ev]; cbn [app].
  - split; [discriminate|intros (H & _); contradiction].
  - destruct (String.eqb_spec url "") as [Eu|Eu]; cbn [orb app].
    + split; [discriminate|intros (_ & H & _); contradiction].
    + destruct (url_parse_ok url) eqn:P; cbn [negb app].
      * destruct (Nat.eqb_spec (String.length sha256) 64) as [L|L];
          destruct (all_chars SpecForms.is_hex sha256) eqn:A; cbn [andb].
        -- split; [intros _; tauto|reflexivity].
        -- split; [discriminate|intros (_ & _ & _ & _ & H); discriminate].
        -- split; [discriminate|intros (_ & _ & _ & H & _); contradiction].
        -- split; [discriminate|intros (_ & _ & _ & H & _); contradiction].
      * split; [discriminate|intros (_ & _ & H & _); discriminate].
Qed.

Lemma IsValidVersion_accepts_witness :
  IsValidVersion (fun _ => true) "1.0.0" "https://example.org/a.tgz"
    "0123456789abcdef0123456789abcdef0123456789abcdef0123456789abcdef" = None
  /\ IsValidVersion (fun _ => true) "" "https://example.org/a.tgz" "ABC" = Some ["version"; "sha256"].
Proof.
  split.
  - apply (proj2 (proj2 (IsValidVersion_accepts (fun _ => true) "1.0.0"
      "https://example.org/a.tgz" "0123456789abcdef0123456789abcdef0123456789abcdef0123456789abcdef"))).
    split; [discriminate|]. split; [discriminate|]. split; [reflexivity|]. split; reflexivity.
  - rewrite (proj1 (IsValidVersion_accepts (fun _ => true) "" "https://example.org/a.tgz" "ABC")).
    reflexivity.
Defined.

End LookupFacts.

(* ================================================================== *)
(** ** The versions list cache and the apps page *)

Module FinderMore.

Import Grammar Download LRU Finders Helpers LRUMore.
Local Open Scope string_scope.
Local Open Scope Z_scope.

(** Extra: a [FindAppVersions] that succeeds is answered again from the
    versions-list cache: a second call for the same slug and channel, at
    most the cache's TTL later, returns the same versions whatever the
    document store then holds (even a failing one). *)
Theorem FindAppVersions_cached (st st' : Store) (appSlug : string) (channel : Channel)
        (now now' : Z) (sp sp' : Space) (vs : AppVersions) :
  lru_wf (cacheVersionsList sp) ->
  FindAppVersions st appSlug channel now sp = Some (sp', ROk vs) ->
  (TTL (cacheVersionsList sp) = 0 \/ now' - now <= TTL (cacheVersionsList sp)) ->
  exists sp'', FindAppVersions st' appSlug channel now' sp' = Some (sp'', ROk vs).
Proof.
  intros Hwf H Httl. unfold FindAppVersions in H.
  set (key := appSlug ++ "/" ++ channelToStr channel) in H.
  destruct (Get_wf key now _ Hwf) as (c1 & r & HG & Hwf1 & HT1).
  rewrite HG in H.
  assert (Hnext : forall c', cacheVersionsList sp' = c' ->
            (exists c'', Get key now' c' = Done c'' (Some vs, true)) ->
            exists sp'', FindAppVersions st' appSlug channel now' sp' = Some (sp'', ROk vs)).
  { intros c' Ec' [c'' Hc'']. unfold FindAppVersions. fold key. rewrite Ec', Hc''.
    eexists. reflexivity. }
  destruct r as [[data|] [|]].
  1: { injection H as <- <-. apply (Hnext c1); [reflexivity|].
        exact (Get_hit_again key data now now' _ c1 Hwf HG Httl). }
  all: destruct (view_query st appSlug (channelToStr channel) (mkQueryOpts 2000 false false))
      as [vr|]; [|discriminate].
    all: destruct (Add key _ now c1) as [c2 []|] eqn:HA; [|discriminate].
    all: injection H as <- <-; apply (Hnext c2); [reflexivity|].
    all: rewrite <- HT1 in Httl; exact (proj2 (Add_then_Get key _ now now' c1 c2 Hwf1 HA Httl)).
Qed.

Lemma FindAppVersions_cached_witness :
  exists sp' vs sp'',
    FindAppVersions dev_store "notes" Dev 0 initSpace = Some (sp', ROk vs)
    /\ FindAppVersions (mkStore (fun _ _ _ => None) []) "notes" Dev minute sp'
       = Some (sp'', ROk vs).
Proof.
  destruct (FindAppVersions dev_store "notes" Dev 0 initSpace) as [[sp' [vs|e|]]|] eqn:E;
    try (vm_compute in E; discriminate).
  destruct (FindAppVersions_cached dev_store (mkStore (fun _ _ _ => None) []) "notes" Dev
              0 minute initSpace sp' vs) as [sp'' H].
  - split; [reflexivity|constructor].
  - exact E.
  - right. cbn. lia.
  - exists sp', vs, sp''. split; [reflexivity|exact H].
Defined.

(** Extra: a [Limit] between -7 and -1 makes [GetAppsList] panic as soon as
    the rows it fetches hold an application that is not a design
    document: the fetch limit [Limit + 7] is not negative, and
    [res[:opts.Limit]] is a slice with a negative bound. *)
Theorem GetAppsList_negative_limit_panics (st : Store) (opts : AppsListOptions)
        (now : Z) (sp : Space) :
  -7 <= Limit opts < 0 -> 0 <= Cursor opts ->
  (exists a, In a (firstn (Z.to_nat (Limit opts + 7)) (skipn (Z.to_nat (Cursor opts)) (apps_rows st)))
             /\ is_design a = false) ->
  GetAppsList st opts now sp = Some (sp, RPanic).
Proof.
  intros Hl Hc (a & Ha & Hd).
  assert (Hlim : effective_limit (Limit opts) = Limit opts).
  { unfold effective_limit, maxLimit.
    destruct (Z.eqb_spec (Limit opts) 0); [lia|].
    destruct (Z.ltb_spec 200 (Limit opts)); [lia|reflexivity]. }
  unfold GetAppsList. rewrite Hlim.
  change (Z.of_nat (List.length appsIndexes)) with 6.
  unfold find.
  replace ((Cursor opts <? 0) || (Limit opts + 6 + 1 <? 0)) with false
    by (symmetry; apply orb_false_iff; split; apply Z.ltb_ge; lia).
  replace (Limit opts + 6 + 1) with (Limit opts + 7) by lia.
  assert (Hin : In a (filter (fun a => negb (is_design a))
            (firstn (Z.to_nat (Limit opts + 7)) (skipn (Z.to_nat (Cursor opts)) (apps_rows st))))).
  { apply filter_In. split; [exact Ha|]. rewrite Hd. reflexivity. }
  destruct (filter (fun a => negb (is_design a))
              (firstn (Z.to_nat (Limit opts + 7)) (skipn (Z.to_nat (Cursor opts)) (apps_rows st))))
    as [|x r]; [contradiction|].
  replace (Limit opts <? Z.of_nat (List.length (x :: r))) with true
    by (symmetry; apply Z.ltb_lt; cbn [List.length]; lia).
  replace (Limit opts <? 0) with true by (symmetry; apply Z.ltb_lt; lia).
  reflexivity.
Qed.

Lemma GetAppsList_negative_limit_panics_witness :
  GetAppsList apps_store (mkAppsListOptions (-1) 0 Stable Stable) 0 initSpace
  = Some (initSpace, RPanic).
Proof.
  apply GetAppsList_negative_limit_panics; cbn [Limit Cursor]; [lia|lia|].
  exists (sample_app "notes"). split; [vm_compute; right; left; reflexivity|reflexivity].
Defined.

End FinderMore.

(* ================================================================== *)
(** ** What an accepted archive gives *)

Module DownloadMore.

Import Grammar Download Helpers.
Local Open Scope string_scope.
Local Open Scope Z_scope.

Lemma scan_type_known (es : list Entry) :
  forall st st', scan st es = Ok st' -> type_known st -> type_known st'.
Proof.
  induction es as [|e es IH]; intros st st' H HP.
  - injection H as <-. exact HP.
  - cbn [scan] in H. destruct (typeflag e).
    3: exact (IH _ _ H HP).
    all: destruct (step_prefix (prefix st) (hdr_name e)) as [p' name]; cbn beta iota zeta in H.
    all: destruct (String.eqb name "manifest.webapp");
      [|destruct (String.eqb name "manifest.konnector")];
      (destruct (String.eqb name "package.json");
       [destruct (parse_package (read_all e)); [|discriminate]|]);
      (eapply IH; [exact H|]); unfold type_known in *; cbn [appType manifestContent];
      first [left; reflexivity | right; left; reflexivity | exact HP].
Qed.

Lemma empty_field_false (k : string) (fs : list (string * JVal)) :
  empty_field k fs = false -> exists s, str_field k fs = Some s /\ s <> "".
Proof.
  unfold empty_field. destruct (str_field k fs) as [s|]; [|discriminate].
  intros H. exists s. split; [reflexivity|]. apply String.eqb_neq. exact H.
Qed.

Lemma reconcile_nil (ov : string) (fs : list (string * JVal)) (pv : string) :
  reconcile ov fs pv = Some [] ->
  empty_field "editor" fs = false /\ empty_field "slug" fs = false
  /\ exists mv, str_field "version" fs = Some mv
     /\ (Channel_eqb (GetVersionChannel ov) Dev = false -> ov = mv)
     /\ (Channel_eqb (GetVersionChannel ov) Dev = true -> VersionMatch ov mv = Some true).
Proof.
  unfold reconcile.
  destruct (empty_field "editor" fs); destruct (empty_field "slug" fs);
  destruct (str_field "version" fs) as [mv|]; cbn beta iota zeta delta [negb];
  destruct (Channel_eqb (GetVersionChannel ov) Dev) eqn:Ch; cbn [negb];
  (destruct (String.eqb ov mv) eqn:Eq || idtac);
  (destruct (VersionMatch ov mv) as [[]|] eqn:VM || idtac);
  destruct (String.eqb pv "") ; cbn [negb];
  (destruct (VersionMatch ov pv) as [[]|] || idtac);
  (destruct (negb (String.eqb ov pv)) || idtac);
  cbn [app]; intros H; try discriminate;
  (split; [reflexivity|]); (split; [reflexivity|]); exists mv;
  (split; [reflexivity|]); split; intros C; try discriminate;
  first [apply String.eqb_eq; exact Eq | exact VM].
Qed.

Section WithLower.
Context {UL : UnicodeLower}.

(** Extra: a version that [downloadVersion] accepts came from a 200
    response, read by the tar reader up to a clean [io.EOF]; the SHA-256
    of the bytes pulled from the body matches the declared one, and its
    size is the number of those bytes ([counter.Written()]), at most
    [maxApplicationSize].  Its slug and editor are the manifest's
    non-empty fields, its type is webapp or konnector, its id is
    [getVersionID] of its slug and the requested version, and the
    manifest's version equals the requested one (or matches it by
    [VersionMatch] on the Dev channel). *)
Theorem downloadVersion_accepted (fetched : option Response) (opts : VersionOptions)
        (now : Z) (ver : Version) :
  downloadVersion fetched opts now = Ok ver ->
  (exists res es, fetched = Some res /\ StatusCode res = 200
     /\ tar_view (ContentType res) (RespBody res) = Some (es, EndEOF, v_Size ver)
     /\ Digest_eqb (o_sha256 opts) (Sha256Of (RespBody res) (v_Size ver)) = true)
  /\ v_Size ver <= maxApplicationSize
  /\ v_Version ver = o_version opts /\ v_URL ver = o_url opts
  /\ v_Sha256 ver = o_sha256 opts /\ v_CreatedAt ver = now
  /\ v_ID ver = getVersionID (v_Slug ver) (o_version opts)
  /\ v_Slug ver <> "" /\ v_Editor ver <> ""
  /\ (v_Type ver = "webapp" \/ v_Type ver = "konnector")
  /\ content_len (v_Manifest ver) <> 0
  /\ exists fs mv, manifest_map (v_Manifest ver) = Some fs
     /\ str_field "slug" fs = Some (v_Slug ver) /\ str_field "editor" fs = Some (v_Editor ver)
     /\ str_field "version" fs = Some mv
     /\ (GetVersionChannel (o_version opts) <> Dev -> mv = o_version opts)
     /\ (GetVersionChannel (o_version opts) = Dev -> VersionMatch (o_version opts) mv = Some true).
Proof.
  intros H. unfold downloadVersion in H.
  destruct fetched as [res|]; [|discriminate].
  destruct (StatusCode res =? 200) eqn:S; cbn [negb] in H; [|discriminate].
  destruct (tar_view (ContentType res) (RespBody res)) as [[[es tend] n]|] eqn:TV;
    [|discriminate].
  destruct (scan initLoop es) as [st|e|] eqn:SC; try discriminate.
  destruct tend; try discriminate.
  2: destruct (reads_data e); discriminate.
  destruct (Digest_eqb (o_sha256 opts) (Sha256Of (RespBody res) n))
    eqn:D; cbn [negb] in H; [|discriminate].
  destruct (content_len (manifestContent st) =? 0) eqn:L; [discriminate|].
  destruct (manifest_map (manifestContent st)) as [fs|] eqn:M; [|discriminate].
  destruct (reconcile (o_version opts) fs (packVersion st)) as [[|x l]|] eqn:R;
    try discriminate.
  injection H as <-.
  cbn [v_ID v_Slug v_Editor v_Type v_Version v_Manifest v_CreatedAt v_URL v_Size v_Sha256].
  destruct (reconcile_nil _ _ _ R) as (E1 & E2 & mv & V & Vs & Vd).
  destruct (empty_field_false _ _ E1) as (ed & Ed & Ned).
  destruct (empty_field_false _ _ E2) as (sl & Sl & Nsl).
  rewrite Ed, Sl.
  assert (Ht : type_known st) by exact (scan_type_known es initLoop st SC (or_intror (or_intror eq_refl))).
  apply Z.eqb_neq in L.
  split; [exists res, es; repeat split; [apply Z.eqb_eq; exact S|exact TV|exact D]|].
  split.
  { pose proof (proj2 (DownloadFacts.tar_view_incl_le _ _ _ _ _ TV)) as Hn.
    unfold limited_len in Hn. lia. }
  do 5 (split; [reflexivity|]).
  split; [exact Nsl|]. split; [exact Ned|].
  split; [destruct Ht as [T|[T|T]]; [left; exact T|right; exact T|contradiction]|].
  split; [exact L|].
  exists fs, mv. do 4 (split; [assumption|]). split.
  - intros Nd. symmetry. apply Vs. destruct (GetVersionChannel (o_version opts)); 
      first [reflexivity | contradiction].
  - intros Dv. apply Vd. rewrite Dv. reflexivity.
Qed.

End WithLower.

Lemma downloadVersion_accepted_witness :
  exists ver,
    downloadVersion (UL := sample_lower) (Some (tar_response [mkEntry TypeReg "notes/manifest.webapp" (manifest_json "1.2.3")]))
      (honest_opts "1.2.3" (TarBody [mkEntry TypeReg "notes/manifest.webapp" (manifest_json "1.2.3")] 0)) 0
    = Ok ver
  /\ v_Size ver <= maxApplicationSize.
Proof.
  destruct (downloadVersion (UL := sample_lower) (Some (tar_response [mkEntry TypeReg "notes/manifest.webapp" (manifest_json "1.2.3")]))
      (honest_opts "1.2.3" (TarBody [mkEntry TypeReg "notes/manifest.webapp" (manifest_json "1.2.3")] 0)) 0)
    as [ver|e|] eqn:E;
    try (vm_compute in E; discriminate).
  exists ver. split; [reflexivity|].
  exact (proj1 (proj2 (@downloadVersion_accepted sample_lower _ _ _ _ E))).
Defined.

End DownloadMore.
